(** * usbserial-xbee: framing of telemetry payloads for an XBee serial link

    A shallow embedding of [usbserial-xbee.cpp]: the bit packing done by
    [setSendDataFromROSBus], the byte-stuffing frame writer and the fixed-rate
    loop of [main], followed by the properties of the specification.

    Conventions.  A C++ integer is a [Z]; every conversion to a fixed-width
    type is written out ([uint8_t], [uint16_t], [int]).  The serial port is the
    list of bytes handed to [write], one element per call; what [main]
    prints to standard output is not recorded.  *)

From Stdlib Require Import ZArith List Bool Lia.
Import ListNotations.
Local Open Scope Z_scope.

(** ** Constants *)

Definition HEAD_BYTE : Z := 0x7D.
Definition ESCAPE_BYTE : Z := 0x7E.
Definition ESCAPE_MASK : Z := 0x20.
Definition HZ : Z := 120.
Definition MAX_DATA_TYPE : Z := 3.

(** ** Fixed-width integer conversions *)

Definition uint8_t (z : Z) : Z := Z.land z 0xFF.
Definition uint16_t (z : Z) : Z := Z.land z 0xFFFF.

(** Two's complement wrap-around of a 32-bit [int]. *)
Definition int (z : Z) : Z := (z + 2 ^ 31) mod 2 ^ 32 - 2 ^ 31.

(** [std::vector<uint8_t>] *)
Definition vu8 : Type := list Z.

Definition push_back (buf : vu8) (b : Z) : vu8 := buf ++ [b].

(** [v.erase(v.begin() + first, v.begin() + last)] *)
Definition erase (buf : vu8) (first last : nat) : vu8 :=
  firstn first buf ++ skipn last buf.

(** ** Global payload fields *)

Record globals : Type := mkGlobals {
  x_vector : Z;
  y_vector : Z;
  th_vector : Z;
  calib_data : Z;
  command : Z
}.

Definition globals0 : globals := mkGlobals 0 0 0 0 0.

(** ** Payload source

    [createRandomNumber] draws from [std::uniform_int_distribution<int>(min,max)]
    seeded by [std::random_device]; the library part is represented by the raw
    draw [r], mapped into the closed interval the distribution is built with. *)

Definition uniform_int_distribution (min max r : Z) : Z :=
  min + r mod (max - min + 1).

Definition createRandomNumber (min max r : Z) : Z :=
  if min =? max then min
  else
    let '(min, max) := if min >? max then (max, min) else (min, max) in
    uniform_int_distribution min max r.

Definition vectorCallback (r0 r1 r2 : Z) (g : globals) : globals :=
  mkGlobals (uint16_t (createRandomNumber 0 (2 ^ 12 - 1) r0))
            (uint16_t (createRandomNumber 0 (2 ^ 12 - 1) r1))
            (uint16_t (createRandomNumber 0 (2 ^ 12 - 1) r2))
            (calib_data g) (command g).

Definition visionCallback (r : Z) (g : globals) : globals :=
  mkGlobals (x_vector g) (y_vector g) (th_vector g)
            (uint16_t (createRandomNumber 0 (2 ^ 13 - 1) r)) (command g).

Definition kickerCallback (r : Z) (g : globals) : globals :=
  mkGlobals (x_vector g) (y_vector g) (th_vector g) (calib_data g)
            (uint16_t (createRandomNumber 0 (2 ^ 5 - 1) r)).

(** ** setSendDataFromROSBus

    [datatype] is the [uint8_t] argument; every [tmp] is a [uint8_t], so each
    right-hand side is truncated when it is stored. *)

Definition setSendDataFromROSBus (datatype : Z) (g : globals) (buf : vu8) : vu8 :=
  match datatype with
  | 0 =>
      let tmp := uint8_t (Z.lor (Z.shiftl (Z.land datatype 0x7) 5)
                                (Z.shiftr (x_vector g) 7)) in
      let buf := push_back buf tmp in
      let tmp := uint8_t (Z.lor (Z.shiftl (Z.land (x_vector g) 0x7F) 1)
                                (Z.shiftr (y_vector g) 11)) in
      let buf := push_back buf tmp in
      let tmp := uint8_t (Z.land (Z.shiftr (y_vector g) 3) 0xFF) in
      let buf := push_back buf tmp in
      let tmp := uint8_t (Z.lor (Z.shiftl (Z.land (y_vector g) 0x3F) 5)
                                (Z.shiftr (th_vector g) 8)) in
      let buf := push_back buf tmp in
      let tmp := uint8_t (Z.land (th_vector g) 0xFF) in
      push_back buf tmp
  | 1 =>
      let tmp := uint8_t (Z.lor (Z.shiftl (Z.land datatype 0x7) 5)
                                (Z.shiftr (calib_data g) 8)) in
      let buf := push_back buf tmp in
      let tmp := uint8_t (Z.land (calib_data g) 0xFF) in
      push_back buf tmp
  | 2 =>
      let tmp := uint8_t (Z.lor (Z.shiftl (Z.land datatype 0x7) 5) (command g)) in
      push_back buf tmp
  | _ => buf
  end.

(** ** The frame writer of [main]

    [is_special b] is the test [*itr==HEAD_BYTE||*itr==ESCAPE_BYTE]. *)

Definition is_special (b : Z) : bool := (b =? HEAD_BYTE) || (b =? ESCAPE_BYTE).

(** The loop over [send_buffer]: the bytes written, the buffer as the in-place
    masking leaves it, and the [int] accumulator [checksum]. *)
Fixpoint main_send_buffer (buf : vu8) (checksum : Z) : list Z * vu8 * Z :=
  match buf with
  | [] => ([], [], checksum)
  | b :: rest =>
      let w := if is_special b then [ESCAPE_BYTE] else [] in
      let b := if is_special b then uint8_t (Z.lxor b ESCAPE_MASK) else b in
      let checksum := int (checksum + b) in
      let '(ws, rest, checksum) := main_send_buffer rest checksum in
      (w ++ b :: ws, b :: rest, checksum)
  end.

(** The trailing checksum: truncation to [u8_checksum], escape, write. *)
Definition main_send_checksum (checksum : Z) : list Z :=
  let u8_checksum := uint8_t (Z.land checksum 0xFF) in
  if is_special u8_checksum
  then [ESCAPE_BYTE; uint8_t (Z.lxor u8_checksum ESCAPE_MASK)]
  else [u8_checksum].

(** One frame: header, stuffed buffer, checksum.  Returns the bytes written,
    in order, and the buffer as it is left before the erase. *)
Definition main_send_frame (send_buffer : vu8) : list Z * vu8 :=
  let checksum := HEAD_BYTE in
  let '(ws, send_buffer, checksum) := main_send_buffer send_buffer checksum in
  (HEAD_BYTE :: ws ++ main_send_checksum checksum, send_buffer).

(** ** Command line

    [argv n] stands for [atoi(argv[n])].  The result carries [hz], the global
    [loop_length] (the out-parameter [loop_len]) and the global
    [loop_count_enable]. *)

Record params : Type := mkParams {
  hz : Z;
  loop_length : Z;
  loop_count_enable : bool
}.

Definition setParameterFromCommandLine (argc : Z) (argv : nat -> Z) : params :=
  let hz :=
    if argc >=? 2 then
      let hz := argv 1%nat in
      if (hz <=? 0) || (100000 <=? hz) then HZ else hz
    else HZ in
  if argc >=? 3 then
    let loop_len := argv 2%nat in
    if loop_len <=? 0 then mkParams hz hz false
    else mkParams hz loop_len true
  else mkParams hz hz false.

(** ** The environment of a run

    What [main] reads from outside, indexed by the iteration [k] of the
    [while] loop: the value of [errorFlag] when the loop condition is
    evaluated, the raw draws behind the five calls of [createRandomNumber],
    and the two results of [gettimeofday]. *)

Record timeval : Type := mkTimeval { tv_sec : Z; tv_usec : Z }.

Record env : Type := mkEnv {
  errorFlag : nat -> bool;
  random_device : nat -> nat -> Z;
  gettimeofday : nat -> nat -> timeval
}.

(** ** The state of [main] *)

Record state : Type := mkState {
  fields : globals;
  send_buffer : vu8;
  serial : list Z;        (* every byte handed to [write(fd,_,1)], in order *)
  usleeps : list Z;       (* every argument of [usleep], in order *)
  loop_count : Z
}.

Definition state0 : state := mkState globals0 [] [] [] 0.

(** The [switch(i)] under [SIMULATE_WITHOUT_ROS]. *)
Definition main_callbacks (E : env) (k : nat) (i : Z) (g : globals) : globals :=
  match i with
  | 0 => vectorCallback (random_device E k 0%nat) (random_device E k 1%nat)
                        (random_device E k 2%nat) g
  | 1 => visionCallback (random_device E k 3%nat) g
  | 2 => kickerCallback (random_device E k 4%nat) g
  | _ => g
  end.

(** The body of [for(int i=0;i<MAX_DATA_TYPE;i++)]. *)
Definition main_for_body (E : env) (k : nat) (st : state) (i : Z) : state :=
  let g := main_callbacks E k i (fields st) in
  let buf := setSendDataFromROSBus (uint8_t i) g (send_buffer st) in
  let '(ws, buf) := main_send_frame buf in
  mkState g (erase buf 0 (length buf)) (serial st ++ ws)
          (usleeps st) (loop_count st).

(** The values [i] takes in a [for(int i=0;i<n;i++)]. *)
Definition for_range (n : Z) : list Z := map Z.of_nat (seq 0 (Z.to_nat n)).

(** [looptime=tv_end.tv_usec-tv_start.tv_usec] *)
Definition looptime (tv_start tv_end : timeval) : Z :=
  int (tv_usec tv_end - tv_usec tv_start).

(** One iteration of the [while] loop up to and including [loop_count++]. *)
Definition main_tick (E : env) (microsecond : Z) (k : nat) (st : state) : state :=
  let tv_start := gettimeofday E k 0%nat in
  let st := fold_left (main_for_body E k) (for_range MAX_DATA_TYPE) st in
  let tv_end := gettimeofday E k 1%nat in
  let looptime := looptime tv_start tv_end in
  let sl := if looptime <? microsecond
            then usleeps st ++ [microsecond - looptime] else usleeps st in
  mkState (fields st) (send_buffer st) (serial st) sl (int (loop_count st + 1)).

(** The [while(!errorFlag)] loop from its [k]-th iteration on; [None] when
    [fuel] iterations were not enough to leave it. *)
Fixpoint main_while (fuel : nat) (E : env) (P : params) (microsecond : Z)
    (k : nat) (st : state) : option state :=
  match fuel with
  | O => None
  | S fuel =>
      if errorFlag E k then Some st
      else
        let st := main_tick E microsecond k st in
        if loop_count_enable P && (loop_count st >=? loop_length P)
        then Some st
        else main_while fuel E P microsecond (S k) st
  end.

(** The line [main] prints to [stderr]; its text is
    ["[__DATE__] __FILE__:__LINE__ # Exit with signal error"]. *)
Inductive stderr_line : Type := Exit_with_signal_error.

Record outcome : Type := mkOutcome {
  final : state;
  stderr : list stderr_line;
  exit_status : Z
}.

(** [microsecond=(int)(1000000.0f/hz)]: for [0 < hz < 100000] the truncated
    single-precision quotient is the integer quotient. *)
Definition main_microsecond (hz : Z) : Z := 1000000 / hz.

Definition main (fuel : nat) (argc : Z) (argv : nat -> Z) (E : env)
  : option outcome :=
  let P := setParameterFromCommandLine argc argv in
  let microsecond := main_microsecond (hz P) in
  match main_while fuel E P microsecond 0%nat state0 with
  | None => None
  | Some st =>
      let err := if loop_count st <? loop_length P
                 then [Exit_with_signal_error] else [] in
      Some (mkOutcome st err 0)
  end.

(** The state in which the [k]-th iteration of the [while] loop starts, when
    the loop gets that far. *)
Fixpoint tick_state (E : env) (microsecond : Z) (k : nat) : state :=
  match k with
  | O => state0
  | S k => main_tick E microsecond k (tick_state E microsecond k)
  end.

(** The state in which the pass [i] of the [for] loop starts in iteration [k]. *)
Definition pass_state (E : env) (microsecond : Z) (k : nat) (i : nat) : state :=
  fold_left (main_for_body E k) (firstn i (for_range MAX_DATA_TYPE))
            (tick_state E microsecond k).

(** ** Reference definitions taken from the specification

    These follow the wording of the specification, not the source; the
    theorems below compare the source with them. *)

Inductive pack_error : Type := InvalidDatatype.

Inductive pack_result : Type :=
  | Packed (bytes : list Z)
  | Failed (e : pack_error).

(** Section 4.1, the formulas as printed, on unbounded unsigned integers. *)
Definition spec_pack (datatype : Z) (g : globals) : pack_result :=
  let x := x_vector g in
  let y := y_vector g in
  let th := th_vector g in
  let calib := calib_data g in
  match datatype with
  | 0 => Packed [ Z.lor (Z.shiftl 0 5) (Z.shiftr x 7);
                  Z.lor (Z.shiftl (Z.land x 0x7F) 1) (Z.shiftr y 11);
                  Z.land (Z.shiftr y 3) 0xFF;
                  Z.lor (Z.shiftl (Z.land y 0x3F) 5) (Z.shiftr th 8);
                  Z.land th 0xFF ]
  | 1 => Packed [ Z.lor (Z.shiftl 1 5) (Z.shiftr calib 8); Z.land calib 0xFF ]
  | 2 => Packed [ Z.lor (Z.shiftl 2 5) (command g) ]
  | _ => Failed InvalidDatatype
  end.

(** What a call of the source function amounts to for a caller that starts
    from an empty buffer: [setSendDataFromROSBus] returns [void] and has no
    failing path, so the call always comes back with the buffer. *)
Definition pack (datatype : Z) (g : globals) : pack_result :=
  Packed (setSendDataFromROSBus datatype g []).

(** Declared bit widths of section 3. *)
Definition fits_widths (g : globals) : Prop :=
  0 <= x_vector g < 2 ^ 12 /\ 0 <= y_vector g < 2 ^ 12 /\
  0 <= th_vector g < 2 ^ 12 /\ 0 <= calib_data g < 2 ^ 13 /\
  0 <= command g < 2 ^ 5.

(** The three payload kinds with their field values. *)
Inductive payload : Type :=
  | VelocityVector (x y th : Z)
  | RotationCalibration (calib : Z)
  | KickerCommand (cmd : Z).

Definition payload_of (datatype : Z) (g : globals) : option payload :=
  match datatype with
  | 0 => Some (VelocityVector (x_vector g) (y_vector g) (th_vector g))
  | 1 => Some (RotationCalibration (calib_data g))
  | 2 => Some (KickerCommand (command g))
  | _ => None
  end.

(** The reader of section 4.2: drop each escape byte and XOR the byte that
    follows it with the mask. *)
Fixpoint spec_unescape (s : list Z) : list Z :=
  match s with
  | [] => []
  | b :: rest =>
      if b =? ESCAPE_BYTE then
        match rest with
        | [] => []
        | c :: rest' => Z.lxor c ESCAPE_MASK :: spec_unescape rest'
        end
      else b :: spec_unescape rest
  end.

(** The inverse of the bit formulas of section 4.1. *)
Definition spec_unpack (bytes : list Z) : option payload :=
  match bytes with
  | [b0; b1; b2; b3; b4] =>
      if Z.shiftr b0 5 =? 0 then
        Some (VelocityVector
                (Z.lor (Z.shiftl (Z.land b0 0x1F) 7) (Z.shiftr b1 1))
                (Z.lor (Z.lor (Z.shiftl (Z.land b1 0x1) 11) (Z.shiftl b2 3))
                       (Z.shiftr b3 5))
                (Z.lor (Z.shiftl (Z.land b3 0xF) 8) b4))
      else None
  | [b0; b1] =>
      if Z.shiftr b0 5 =? 1 then
        Some (RotationCalibration (Z.lor (Z.shiftl (Z.land b0 0x1F) 8) b1))
      else None
  | [b0] =>
      if Z.shiftr b0 5 =? 2 then Some (KickerCommand (Z.land b0 0x1F))
      else None
  | _ => None
  end.

(** A whole frame: the header is taken off, the rest is de-stuffed, the last
    byte is the checksum, the others are the payload. *)
Definition spec_decode (stream : list Z) : option payload :=
  match stream with
  | h :: rest =>
      if h =? HEAD_BYTE then spec_unpack (removelast (spec_unescape rest))
      else None
  | [] => None
  end.

(** Section 4.3, step 3: the duration from start to end, in microseconds. *)
Definition spec_elapsed (tv_start tv_end : timeval) : Z :=
  (tv_sec tv_end - tv_sec tv_start) * 1000000 + (tv_usec tv_end - tv_usec tv_start).

(** ** Auxiliary notions used in the statements *)

(** The value a buffer element has when it is written. *)
Definition masked (b : Z) : Z :=
  if is_special b then Z.lxor b ESCAPE_MASK else b.

(** The bytes written for one buffer element or checksum. *)
Definition stuffed (b : Z) : list Z :=
  if is_special b then [ESCAPE_BYTE; Z.lxor b ESCAPE_MASK] else [b].

Definition not_escape (b : Z) : bool := negb (b =? ESCAPE_BYTE).

Definition sum (l : list Z) : Z := fold_right Z.add 0 l.

Definition count_special (l : list Z) : nat := length (filter is_special l).

(** Field values and environments used in the examples. *)
Definition sample_fields : globals := mkGlobals 4095 0 0 0 0.

Definition calib_0x7D : globals := mkGlobals 0 0 0 0x7D 0.

Definition env_cancelled_at (n : nat) : env :=
  mkEnv (fun k => (n <=? k)%nat) (fun _ _ => 0) (fun _ _ => mkTimeval 0 0).

Definition no_args : nat -> Z := fun _ => 0.

(** The checksum byte of the frame built from [buf], before its own
    escaping: header plus the written buffer values, cut to eight bits. *)
Definition frame_checksum (buf : vu8) : Z :=
  (HEAD_BYTE + sum (map masked buf)) mod 256.

(** The accumulator after the loop, as a left fold of the [int] additions. *)
Definition accumulate (l : list Z) (checksum : Z) : Z :=
  fold_left (fun c b => int (c + b)) l checksum.

(** ** Signals

    The signal numbers of [<signal.h>] as an enumeration; [SIG_other] stands
    for any number that is none of the five the handler names. *)

Inductive signal : Type :=
  | SIGQUIT | SIGINT | SIGKILL | SIGILL | SIGTERM
  | SIG_other (signo : Z).

(** [signalHandler], as a transformer of the global [errorFlag]. *)
Definition signalHandler (signo : signal) (errorFlag : Z) : Z :=
  match signo with
  | SIGQUIT | SIGINT | SIGKILL | SIGILL | SIGTERM => 1
  | SIG_other _ => errorFlag
  end.

(** The signals [main] installs the handler for. *)
Definition main_signals : list signal := [SIGINT; SIGQUIT; SIGILL; SIGTERM].

(** [errorFlag] after the handler ran for each signal of [delivered], from
    the initial value 0. *)
Definition errorFlag_after (delivered : list signal) : Z :=
  fold_left (fun flag signo => signalHandler signo flag) delivered 0.

(** An environment whose flag comes from handler runs: [arrivals j] are the
    signals handled before the [j]-th evaluation of the loop condition and
    after the one before it ([arrivals 0]: before the first).  The condition
    [!errorFlag] reads the flag as non-zero. *)
Definition env_with_signals (arrivals : nat -> list signal)
    (rnd : nat -> nat -> Z) (clock : nat -> nat -> timeval) : env :=
  mkEnv (fun k => negb (errorFlag_after (concat (map arrivals (seq 0 (S k)))) =? 0))
        rnd clock.

(** Number of header bytes in a stream. *)
Definition count_headers (l : list Z) : nat := count_occ Z.eq_dec l HEAD_BYTE.

(** A value of type [uint8_t]. *)
Definition is_byte (b : Z) : Prop := 0 <= b < 256.

(** The frame written by pass [i] of iteration [k]. *)
Definition pass_frame (E : env) (microsecond : Z) (k i : nat) : list Z :=
  fst (main_send_frame
         (setSendDataFromROSBus (Z.of_nat i)
            (fields (pass_state E microsecond k (S i))) [])).

(** * Properties *)

(** ** Bit operations as arithmetic *)

Module BitArith.

Lemma uint8_t_mod z : uint8_t z = z mod 256.
Proof. unfold uint8_t. change 0xFF with (Z.ones 8). apply Z.land_ones. lia. Qed.

Lemma uint8_t_range z : 0 <= uint8_t z < 256.
Proof. rewrite uint8_t_mod. apply Z.mod_pos_bound. lia. Qed.

Lemma uint8_t_small z : 0 <= z < 256 -> uint8_t z = z.
Proof. intros. rewrite uint8_t_mod. apply Z.mod_small. assumption. Qed.

Lemma uint16_t_small z : 0 <= z < 65536 -> uint16_t z = z.
Proof.
  intros. unfold uint16_t. change 0xFFFF with (Z.ones 16).
  rewrite Z.land_ones by lia. apply Z.mod_small. assumption.
Qed.

Lemma land_0x1 z : Z.land z 0x1 = z mod 2.
Proof. change 0x1 with (Z.ones 1). apply Z.land_ones. lia. Qed.

Lemma land_0x7 z : Z.land z 0x7 = z mod 8.
Proof. change 0x7 with (Z.ones 3). apply Z.land_ones. lia. Qed.

Lemma land_0xF z : Z.land z 0xF = z mod 16.
Proof. change 0xF with (Z.ones 4). apply Z.land_ones. lia. Qed.

Lemma land_0x1F z : Z.land z 0x1F = z mod 32.
Proof. change 0x1F with (Z.ones 5). apply Z.land_ones. lia. Qed.

Lemma land_0x3F z : Z.land z 0x3F = z mod 64.
Proof. change 0x3F with (Z.ones 6). apply Z.land_ones. lia. Qed.

Lemma land_0x7F z : Z.land z 0x7F = z mod 128.
Proof. change 0x7F with (Z.ones 7). apply Z.land_ones. lia. Qed.

Lemma land_0xFF z : Z.land z 0xFF = z mod 256.
Proof. exact (uint8_t_mod z). Qed.

(** Two values with no common bit: the low [n] bits of [a] are clear and [b]
    fits in them. *)
Lemma lor_disjoint_add a b n :
  0 <= n -> a mod 2 ^ n = 0 -> 0 <= b < 2 ^ n -> Z.lor a b = a + b.
Proof.
  intros Hn Ha Hb.
  assert (H0 : Z.land a b = 0).
  { apply Z.bits_inj'. intros i Hi. rewrite Z.land_spec, Z.bits_0.
    destruct (Z.lt_ge_cases i n) as [Hlt | Hge].
    - rewrite <- (Z.mod_pow2_bits_low a n i) by lia.
      rewrite Ha, Z.bits_0. reflexivity.
    - rewrite <- (Z.mod_small b (2 ^ n)) by lia.
      rewrite Z.mod_pow2_bits_high by lia. apply andb_false_r. }
  rewrite <- Z.lxor_lor by assumption.
  symmetry. apply Z.add_nocarry_lxor. assumption.
Qed.

End BitArith.

Create Rewrite HintDb to_arith.
#[local] Hint Rewrite BitArith.uint8_t_mod BitArith.land_0x1 BitArith.land_0x7
  BitArith.land_0xF BitArith.land_0x1F BitArith.land_0x3F BitArith.land_0x7F
  BitArith.land_0xFF : to_arith.
#[local] Hint Rewrite Z.shiftr_div_pow2 Z.shiftl_mul_pow2 using lia : to_arith.

Ltac pow2s :=
  change (2 ^ 1) with 2 in *; change (2 ^ 3) with 8 in *;
  change (2 ^ 5) with 32 in *; change (2 ^ 7) with 128 in *;
  change (2 ^ 8) with 256 in *; change (2 ^ 11) with 2048 in *;
  change (2 ^ 12) with 4096 in *; change (2 ^ 13) with 8192 in *.

Ltac divmod := pow2s; Z.div_mod_to_equations; lia.

(** [lor_add n]: turn the outermost remaining [Z.lor] whose right operand
    fits in [n] bits into a sum. *)
Ltac lor_add n :=
  match goal with
  | |- context [Z.lor ?a ?b] =>
      rewrite (BitArith.lor_disjoint_add a b n) by divmod
  end.

Ltac list_eq := repeat (apply (f_equal2 (@cons Z))); try reflexivity.

Lemma pack0_arith g buf :
  fits_widths g ->
  setSendDataFromROSBus 0 g buf =
  buf ++ [ x_vector g / 128;
           x_vector g mod 128 * 2 + y_vector g / 2048;
           (y_vector g / 8) mod 256;
           y_vector g mod 8 * 32 + th_vector g / 256;
           th_vector g mod 256 ].
Proof.
  intros (Hx & Hy & Ht & _).
  unfold setSendDataFromROSBus, push_back.
  repeat rewrite <- app_assoc. cbn [app]. f_equal.
  autorewrite with to_arith.
  lor_add 5. lor_add 1. lor_add 5.
  list_eq; divmod.
Qed.

Lemma pack1_arith g buf :
  fits_widths g ->
  setSendDataFromROSBus 1 g buf =
  buf ++ [ 32 + calib_data g / 256; calib_data g mod 256 ].
Proof.
  intros (_ & _ & _ & Hc & _).
  unfold setSendDataFromROSBus, push_back.
  repeat rewrite <- app_assoc. cbn [app]. f_equal.
  autorewrite with to_arith.
  lor_add 5.
  list_eq; divmod.
Qed.

Lemma pack2_arith g buf :
  fits_widths g ->
  setSendDataFromROSBus 2 g buf = buf ++ [ 64 + command g ].
Proof.
  intros (_ & _ & _ & _ & Hk).
  unfold setSendDataFromROSBus, push_back. f_equal.
  autorewrite with to_arith.
  lor_add 5.
  list_eq; divmod.
Qed.

(** ** PayloadPacker *)

(** C1 (amended).  Within the declared widths the packer yields the bytes of
    the formulas of section 4.1, where the fourth byte of a velocity vector is
    the formula's value cut to eight bits, that is
    [((y & 0x07) << 5) | (th >> 8)]. *)
Theorem pack_bytes_within_widths (g : globals) :
  fits_widths g ->
  let x := x_vector g in
  let y := y_vector g in
  let th := th_vector g in
  let calib := calib_data g in
  setSendDataFromROSBus 0 g [] =
    [ Z.lor (Z.shiftl 0 5) (Z.shiftr x 7);
      Z.lor (Z.shiftl (Z.land x 0x7F) 1) (Z.shiftr y 11);
      Z.land (Z.shiftr y 3) 0xFF;
      Z.land (Z.lor (Z.shiftl (Z.land y 0x3F) 5) (Z.shiftr th 8)) 0xFF;
      Z.land th 0xFF ] /\
  Z.land (Z.lor (Z.shiftl (Z.land y 0x3F) 5) (Z.shiftr th 8)) 0xFF =
    Z.lor (Z.shiftl (Z.land y 0x07) 5) (Z.shiftr th 8) /\
  setSendDataFromROSBus 1 g [] =
    [ Z.lor (Z.shiftl 1 5) (Z.shiftr calib 8); Z.land calib 0xFF ] /\
  setSendDataFromROSBus 2 g [] = [ Z.lor (Z.shiftl 2 5) (command g) ].
Proof.
  intros H x y th calib.
  rewrite pack0_arith, pack1_arith, pack2_arith by assumption.
  destruct H as (Hx & Hy & Ht & Hc & Hk). fold x y th calib in Hx, Hy, Ht, Hc.
  fold x y th calib. cbn [app].
  autorewrite with to_arith.
  repeat lor_add 5. lor_add 1.
  repeat split; list_eq; divmod.
Qed.

Lemma pack_bytes_within_widths_witness :
  fits_widths sample_fields /\
  setSendDataFromROSBus 0 sample_fields [] = [0x1F; 0xFE; 0x00; 0x00; 0x00] /\
  setSendDataFromROSBus 1 sample_fields [] = [0x20; 0x00] /\
  setSendDataFromROSBus 2 sample_fields [] = [0x40].
Proof.
  assert (H : fits_widths sample_fields) by (unfold fits_widths; cbn; lia).
  destruct (pack_bytes_within_widths sample_fields H) as (H0 & _ & H1 & H2).
  split; [exact H |]. split; [exact H0 |]. split; [exact H1 | exact H2].
Defined.

(** C1, as stated, fails: with [y = 8] the printed formula for the fourth
    byte has the value 256, while the source stores 0. *)
Lemma pack_formula_b3_overflows :
  fits_widths (mkGlobals 0 8 0 0 0) /\
  spec_pack 0 (mkGlobals 0 8 0 0 0) = Packed [0; 0; 1; 256; 0] /\
  pack 0 (mkGlobals 0 8 0 0 0) = Packed [0; 0; 1; 0; 0] /\
  pack 0 (mkGlobals 0 8 0 0 0) <> spec_pack 0 (mkGlobals 0 8 0 0 0).
Proof.
  repeat split; try (cbn; lia); try reflexivity.
  intro H; vm_compute in H; discriminate H.
Qed.

(** C5 (amended).  For [x = 4095], [y = 0], [th = 0] the payload is
    [0x1F 0xFE 0x00 0x00 0x00]; no byte of it, nor the checksum [0x9A], is
    0x7D or 0x7E, and the frame written has no escape byte. *)
Theorem boundary_scenario_bytes :
  setSendDataFromROSBus 0 (mkGlobals 4095 0 0 0 0) [] = [0x1F; 0xFE; 0x00; 0x00; 0x00] /\
  forallb (fun b => negb (is_special b))
          (setSendDataFromROSBus 0 (mkGlobals 4095 0 0 0 0) []) = true /\
  fst (main_send_frame (setSendDataFromROSBus 0 (mkGlobals 4095 0 0 0 0) [])) =
    [0x7D; 0x1F; 0xFE; 0x00; 0x00; 0x00; 0x9A].
Proof. repeat split; vm_compute; reflexivity. Qed.

(** C5, as stated, fails: the second byte is [0xFE], not [0x02]. *)
Lemma boundary_scenario_b1_is_not_0x02 :
  setSendDataFromROSBus 0 (mkGlobals 4095 0 0 0 0) [] <> [0x1F; 0x02; 0x00; 0x00; 0x00] /\
  nth 1 (setSendDataFromROSBus 0 (mkGlobals 4095 0 0 0 0) []) 0 = 0xFE.
Proof. split; [intro H; vm_compute in H; discriminate H | reflexivity]. Qed.

(** C6 (amended).  For a tag outside {0,1,2} the packer reaches
    [default: break;]: it returns normally and leaves the buffer as it was. *)
Theorem pack_other_tag_appends_nothing (datatype : Z) (g : globals) (buf : vu8) :
  datatype <> 0 -> datatype <> 1 -> datatype <> 2 ->
  setSendDataFromROSBus datatype g buf = buf /\ pack datatype g = Packed [].
Proof.
  intros H0 H1 H2. unfold pack, setSendDataFromROSBus.
  destruct datatype as [| p | p]; try congruence;
    [destruct p as [p | p |]; try congruence; auto;
     destruct p; auto; congruence | auto].
Qed.

Lemma pack_other_tag_appends_nothing_witness :
  setSendDataFromROSBus 3 sample_fields [0x11] = [0x11] /\
  pack 3 sample_fields = Packed [].
Proof.
  apply (pack_other_tag_appends_nothing 3 sample_fields [0x11]); discriminate.
Defined.

(** C6, as stated, fails: the call with tag 3 does not fail. *)
Lemma pack_tag3_does_not_fail :
  spec_pack 3 globals0 = Failed InvalidDatatype /\
  pack 3 globals0 = Packed [] /\
  pack 3 globals0 <> Failed InvalidDatatype.
Proof. repeat split; discriminate. Qed.

(** ** FrameEncoder *)

Lemma is_special_cases b :
  is_special b = true -> b = HEAD_BYTE \/ b = ESCAPE_BYTE.
Proof.
  unfold is_special. intros H. apply orb_true_iff in H.
  destruct H as [H | H]; apply Z.eqb_eq in H; auto.
Qed.

Lemma is_special_false b :
  is_special b = false -> b <> HEAD_BYTE /\ b <> ESCAPE_BYTE.
Proof.
  unfold is_special. intros H. apply orb_false_iff in H.
  destruct H as [H1 H2]. apply Z.eqb_neq in H1, H2. auto.
Qed.

Lemma masked_special b :
  is_special b = true -> uint8_t (Z.lxor b ESCAPE_MASK) = Z.lxor b ESCAPE_MASK.
Proof. intros H. destruct (is_special_cases b H); subst b; reflexivity. Qed.

Lemma masked_not_special b : is_special (masked b) = false.
Proof.
  unfold masked. destruct (is_special b) eqn:H; [| assumption].
  destruct (is_special_cases b H); subst b; reflexivity.
Qed.

Lemma int_mod256 z : int z mod 256 = z mod 256.
Proof.
  unfold int. change (2 ^ 31) with 2147483648.
  change (2 ^ 32) with (256 * 16777216).
  Z.div_mod_to_equations. lia.
Qed.

Lemma int_small z : - 2 ^ 31 <= z < 2 ^ 31 -> int z = z.
Proof.
  unfold int. change (2 ^ 31) with 2147483648.
  change (2 ^ 32) with 4294967296. intros. Z.div_mod_to_equations. lia.
Qed.

Lemma sum_cons a l : sum (a :: l) = a + sum l.
Proof. reflexivity. Qed.

Lemma sum_app l1 l2 : sum (l1 ++ l2) = sum l1 + sum l2.
Proof.
  induction l1 as [| a l1 IH]; [reflexivity |].
  cbn [app]. rewrite !sum_cons, IH. lia.
Qed.

Lemma accumulate_mod256 l c : accumulate l c mod 256 = (c + sum l) mod 256.
Proof.
  unfold accumulate. revert c. induction l as [| a l IH]; intros c.
  - cbn [fold_left]. change (sum []) with 0. f_equal. lia.
  - cbn [fold_left]. rewrite IH, sum_cons.
    rewrite (Z.add_mod (int (c + a))), int_mod256, <- Z.add_mod by lia.
    f_equal. lia.
Qed.

Lemma accumulate_cons b l c :
  accumulate (b :: l) c = accumulate l (int (c + b)).
Proof. reflexivity. Qed.

Lemma main_send_buffer_eq buf c :
  main_send_buffer buf c =
  (flat_map stuffed buf, map masked buf, accumulate (map masked buf) c).
Proof.
  revert c. induction buf as [| b buf IH]; intros c; [reflexivity |].
  cbn [main_send_buffer flat_map map]. rewrite accumulate_cons.
  assert (Hm : masked b = if is_special b then Z.lxor b ESCAPE_MASK else b)
    by reflexivity.
  assert (Hs : stuffed b =
               if is_special b then [ESCAPE_BYTE; Z.lxor b ESCAPE_MASK] else [b])
    by reflexivity.
  rewrite Hm, Hs. clear Hm Hs.
  destruct (is_special b) eqn:Hb.
  - rewrite (masked_special b Hb), IH. reflexivity.
  - rewrite IH. reflexivity.
Qed.

Lemma main_send_checksum_eq c : main_send_checksum c = stuffed (c mod 256).
Proof.
  unfold main_send_checksum, stuffed.
  rewrite BitArith.land_0xFF, BitArith.uint8_t_mod, Z.mod_mod by lia.
  destruct (is_special (c mod 256)) eqn:H; [| reflexivity].
  rewrite (masked_special _ H). reflexivity.
Qed.

Lemma main_send_frame_eq buf :
  main_send_frame buf =
  (HEAD_BYTE :: flat_map stuffed buf ++ stuffed (frame_checksum buf),
   map masked buf).
Proof.
  unfold main_send_frame. rewrite main_send_buffer_eq, main_send_checksum_eq.
  rewrite accumulate_mod256. reflexivity.
Qed.

Lemma stuffed_without_markers l :
  filter not_escape (flat_map stuffed l) = map masked l.
Proof.
  induction l as [| b l IH]; [reflexivity |].
  cbn [flat_map map]. rewrite filter_app, IH. f_equal.
  unfold stuffed, masked. destruct (is_special b) eqn:Hb.
  - destruct (is_special_cases b Hb); subst b; reflexivity.
  - destruct (is_special_false b Hb) as [_ H]. cbn. unfold not_escape.
    apply Z.eqb_neq in H. rewrite H. reflexivity.
Qed.

(** C2.  The frame ends with the checksum: the low eight bits of the header
    value plus every payload byte as written, the inserted escape bytes left
    out; when that value is 0x7D or 0x7E an escape byte is written and the
    checksum follows XOR 0x20. *)
Theorem checksum_of_written_bytes (buf : vu8) :
  let ws := fst (fst (main_send_buffer buf HEAD_BYTE)) in
  let c := (0x7D + sum (filter not_escape ws)) mod 256 in
  fst (main_send_frame buf) =
    0x7D :: ws ++
      (if (c =? 0x7D) || (c =? 0x7E) then [0x7E; Z.lxor c 0x20] else [c]) /\
  ws = flat_map stuffed buf /\
  filter not_escape ws = map masked buf /\
  Z.land (snd (main_send_buffer buf HEAD_BYTE)) 0xFF = c.
Proof.
  intros ws c. subst ws c.
  rewrite main_send_frame_eq, main_send_buffer_eq. cbn [fst snd].
  rewrite stuffed_without_markers, BitArith.land_0xFF, accumulate_mod256.
  repeat split.
Qed.

(** *** Escaping *)

Lemma stuffed_no_header l i :
  nth_error (flat_map stuffed l) i <> Some HEAD_BYTE.
Proof.
  revert i. induction l as [| b l IH]; intros i.
  - destruct i; discriminate.
  - cbn [flat_map]. unfold stuffed at 1. destruct (is_special b) eqn:Hb.
    + destruct i as [| [| i]]; cbn; [discriminate | | apply IH].
      destruct (is_special_cases b Hb); subst b; discriminate.
    + destruct i as [| i]; cbn; [| apply IH].
      destruct (is_special_false b Hb) as [H _]. congruence.
Qed.

Lemma stuffed_escape_followed l i :
  nth_error (flat_map stuffed l) i = Some ESCAPE_BYTE ->
  exists b, In b l /\ is_special b = true /\
            nth_error (flat_map stuffed l) (S i) = Some (Z.lxor b ESCAPE_MASK).
Proof.
  revert i. induction l as [| b l IH]; intros i H.
  - destruct i; discriminate.
  - cbn [flat_map] in *. unfold stuffed at 1 in H. unfold stuffed at 1.
    destruct (is_special b) eqn:Hb.
    + destruct i as [| [| i]]; cbn in *.
      * exists b. auto.
      * destruct (is_special_cases b Hb); subst b; discriminate.
      * destruct (IH i H) as (b' & Hin & Hs & Hn). exists b'. auto.
    + destruct i as [| i]; cbn in *.
      * destruct (is_special_false b Hb) as [_ Hne]. congruence.
      * destruct (IH i H) as (b' & Hin & Hs & Hn). exists b'. auto.
Qed.

Lemma stuffed_escape_not_preceded l i :
  nth_error (flat_map stuffed l) i = Some ESCAPE_BYTE ->
  nth_error (flat_map stuffed l) (S i) <> Some ESCAPE_BYTE.
Proof.
  intros H. destruct (stuffed_escape_followed l i H) as (b & _ & Hb & Hn).
  rewrite Hn. destruct (is_special_cases b Hb); subst b; discriminate.
Qed.

Lemma stuffed_at l j b :
  nth_error l j = Some b ->
  let p := length (flat_map stuffed (firstn j l)) in
  if is_special b
  then nth_error (flat_map stuffed l) p = Some ESCAPE_BYTE /\
       nth_error (flat_map stuffed l) (S p) = Some (Z.lxor b ESCAPE_MASK)
  else nth_error (flat_map stuffed l) p = Some b.
Proof.
  intros H. apply nth_error_split in H. destruct H as (l1 & l2 & -> & <-).
  rewrite firstn_app, firstn_all, Nat.sub_diag, firstn_0, app_nil_r.
  rewrite flat_map_app. cbn [flat_map]. cbv zeta.
  set (A := flat_map stuffed l1). set (B := flat_map stuffed l2).
  assert (Hs : stuffed b =
               if is_special b then [ESCAPE_BYTE; Z.lxor b ESCAPE_MASK] else [b])
    by reflexivity.
  rewrite Hs. clear Hs.
  destruct (is_special b); [split |].
  - rewrite nth_error_app2, Nat.sub_diag by lia. reflexivity.
  - rewrite nth_error_app2 by lia.
    replace (S (length A) - length A)%nat with 1%nat by lia. reflexivity.
  - rewrite nth_error_app2, Nat.sub_diag by lia. reflexivity.
Qed.

(** C3.  In the stream of a frame, every payload or checksum byte whose
    value is 0x7D or 0x7E is written with the escape byte 0x7E right before
    it and as its value XOR 0x20, and every other byte is written as it is;
    the header is the first byte, untouched, and the value 0x7D occurs
    nowhere else; each 0x7E in the stream is such an inserted escape byte,
    followed by an original 0x7D or 0x7E XOR 0x20. *)
Theorem escaping_of_frame (buf : vu8) :
  let stream := fst (main_send_frame buf) in
  let c := frame_checksum buf in
  let original := buf ++ [c] in
  let written_at j := S (length (flat_map stuffed (firstn j original))) in
  stream = HEAD_BYTE ::
    flat_map (fun b => if (b =? 0x7D) || (b =? 0x7E)
                       then [0x7E; Z.lxor b 0x20] else [b]) original /\
  (forall j b, nth_error original j = Some b ->
     if (b =? 0x7D) || (b =? 0x7E)
     then nth_error stream (written_at j) = Some 0x7E /\
          nth_error stream (S (written_at j)) = Some (Z.lxor b 0x20)
     else nth_error stream (written_at j) = Some b) /\
  (forall i, nth_error stream (S i) <> Some 0x7D) /\
  (forall i, nth_error stream i = Some 0x7E ->
     (exists b, In b original /\ (b = 0x7D \/ b = 0x7E) /\
                nth_error stream (S i) = Some (Z.lxor b 0x20)) /\
     nth_error stream (S i) <> Some 0x7E).
Proof.
  intros stream c original written_at. subst stream c original written_at.
  rewrite main_send_frame_eq. cbn [fst].
  assert (E : HEAD_BYTE :: flat_map stuffed buf ++ stuffed (frame_checksum buf)
              = HEAD_BYTE :: flat_map stuffed (buf ++ [frame_checksum buf])).
  { rewrite flat_map_app. cbn [flat_map]. rewrite app_nil_r. reflexivity. }
  rewrite E. clear E. split; [reflexivity |]. split; [| split].
  - intros j b H. cbn [nth_error]. exact (stuffed_at _ j b H).
  - intros i. cbn [nth_error]. apply stuffed_no_header.
  - intros [| i] H; [discriminate |]. cbn [nth_error] in *. split.
    + destruct (stuffed_escape_followed _ _ H) as (b & Hin & Hs & Hn).
      exists b. split; [assumption |]. split; [| assumption].
      apply is_special_cases. assumption.
    + apply stuffed_escape_not_preceded. assumption.
Qed.

(** The calibration value 0x7D: the frame is [7D 20 7E 5D FA], the payload
    byte 0x7D being written as 0x7E 0x5D. *)
Lemma escaping_of_frame_witness :
  nth_error (setSendDataFromROSBus 1 calib_0x7D []) 1 = Some 0x7D /\
  nth_error (fst (main_send_frame (setSendDataFromROSBus 1 calib_0x7D []))) 2
    = Some 0x7E /\
  nth_error (fst (main_send_frame (setSendDataFromROSBus 1 calib_0x7D []))) 3
    = Some (Z.lxor 0x7D 0x20).
Proof.
  split; [reflexivity |].
  destruct (escaping_of_frame (setSendDataFromROSBus 1 calib_0x7D []))
    as (_ & H & _).
  exact (H 1%nat 0x7D eq_refl).
Defined.

(** *** Number of writes *)

Lemma length_stuffed b :
  length (stuffed b) = if is_special b then 2%nat else 1%nat.
Proof. unfold stuffed. destruct (is_special b); reflexivity. Qed.

Lemma length_flat_map_stuffed l :
  length (flat_map stuffed l) = (length l + count_special l)%nat.
Proof.
  unfold count_special. induction l as [| b l IH]; [reflexivity |].
  cbn [flat_map filter]. rewrite length_app, length_stuffed, IH.
  destruct (is_special b); cbn [length]; lia.
Qed.

Lemma count_special_le l : (count_special l <= length l)%nat.
Proof. unfold count_special. apply filter_length_le. Qed.

(** C9 (amended).  One frame takes one write for the header, one per payload
    byte, one for the checksum and one more for each escaped byte: between
    [length + 2] and [2 * length + 3] single-byte writes. *)
Theorem writes_per_frame (buf : vu8) :
  let n := length (fst (main_send_frame buf)) in
  n = (length buf + 2 + count_special buf
       + (if is_special (frame_checksum buf) then 1 else 0))%nat /\
  (length buf + 2 <= n <= 2 * length buf + 3)%nat.
Proof.
  intros n. subst n. rewrite main_send_frame_eq. cbn [fst length].
  rewrite length_app, length_flat_map_stuffed, length_stuffed.
  pose proof (count_special_le buf).
  destruct (is_special (frame_checksum buf)); lia.
Qed.

(** C9, as stated, fails: the two-byte payload of the calibration value 0x7D
    takes five writes, more than [2 + 2]. *)
Lemma five_writes_for_two_bytes :
  length (setSendDataFromROSBus 1 calib_0x7D []) = 2%nat /\
  length (fst (main_send_frame (setSendDataFromROSBus 1 calib_0x7D []))) = 5%nat /\
  ~ (1 <= length (fst (main_send_frame (setSendDataFromROSBus 1 calib_0x7D [])))
       <= length (setSendDataFromROSBus 1 calib_0x7D []) + 2)%nat.
Proof. repeat split. cbn. lia. Qed.

(** The upper bound is reached: ten bytes 0x7D and one 0x7E give the
    checksum 0x7D, and every one of the twelve is escaped. *)
Example writes_per_frame_upper_bound_reached :
  length (fst (main_send_frame (repeat 0x7D 10 ++ [0x7E]))) = (2 * 11 + 3)%nat.
Proof. reflexivity. Qed.

(** ** Round trip *)

Lemma unescape_stuffed l : spec_unescape (flat_map stuffed l) = l.
Proof.
  induction l as [| b l IH]; [reflexivity |].
  cbn [flat_map]. unfold stuffed at 1. destruct (is_special b) eqn:Hb.
  - cbn [app spec_unescape]. rewrite Z.eqb_refl, IH. f_equal.
    destruct (is_special_cases b Hb); subst b; reflexivity.
  - cbn [app spec_unescape]. destruct (is_special_false b Hb) as [_ Hne].
    apply Z.eqb_neq in Hne. rewrite Hne, IH. reflexivity.
Qed.

(** De-stuffing a frame gives back the buffer and the checksum. *)
Lemma spec_decode_frame buf :
  spec_decode (fst (main_send_frame buf)) = spec_unpack buf.
Proof.
  rewrite main_send_frame_eq. cbn [fst spec_decode]. rewrite Z.eqb_refl.
  replace (flat_map stuffed buf ++ stuffed (frame_checksum buf))
    with (flat_map stuffed (buf ++ [frame_checksum buf]))
    by (rewrite flat_map_app; cbn [flat_map]; rewrite app_nil_r; reflexivity).
  rewrite unescape_stuffed, removelast_last. reflexivity.
Qed.

Lemma unpack_pack0 g :
  fits_widths g ->
  spec_unpack (setSendDataFromROSBus 0 g []) =
  Some (VelocityVector (x_vector g) (y_vector g) (th_vector g)).
Proof.
  intros H. rewrite pack0_arith by assumption.
  destruct H as (Hx & Hy & Ht & _). cbn [app spec_unpack].
  replace (Z.shiftr (x_vector g / 128) 5) with 0
    by (autorewrite with to_arith; divmod).
  cbn [Z.eqb]. autorewrite with to_arith.
  lor_add 7. lor_add 11. lor_add 3. lor_add 8.
  f_equal. f_equal; divmod.
Qed.

Lemma unpack_pack1 g :
  fits_widths g ->
  spec_unpack (setSendDataFromROSBus 1 g []) =
  Some (RotationCalibration (calib_data g)).
Proof.
  intros H. rewrite pack1_arith by assumption.
  destruct H as (_ & _ & _ & Hc & _). cbn [app spec_unpack].
  replace (Z.shiftr (32 + calib_data g / 256) 5) with 1
    by (autorewrite with to_arith; divmod).
  cbn [Z.eqb Pos.eqb]. autorewrite with to_arith.
  lor_add 8.
  f_equal. f_equal; divmod.
Qed.

Lemma unpack_pack2 g :
  fits_widths g ->
  spec_unpack (setSendDataFromROSBus 2 g []) = Some (KickerCommand (command g)).
Proof.
  intros H. rewrite pack2_arith by assumption.
  destruct H as (_ & _ & _ & _ & Hk). cbn [app spec_unpack].
  replace (Z.shiftr (64 + command g) 5) with 2
    by (autorewrite with to_arith; divmod).
  cbn [Z.eqb Pos.eqb]. autorewrite with to_arith.
  f_equal. f_equal; divmod.
Qed.

(** C4.  For a tag in {0,1,2} and fields within the declared widths, taking
    the header off the frame, dropping each escape byte while XORing the byte
    after it with 0x20, setting the checksum aside and inverting the bit
    formulas gives back the tag and the field values. *)
Theorem frame_round_trip (datatype : Z) (g : globals) :
  fits_widths g ->
  datatype = 0 \/ datatype = 1 \/ datatype = 2 ->
  exists p,
    payload_of datatype g = Some p /\
    spec_decode (fst (main_send_frame (setSendDataFromROSBus datatype g []))) =
      Some p.
Proof.
  intros Hg [H | [H | H]]; subst datatype; rewrite spec_decode_frame;
    eexists; (split; [reflexivity |]).
  - apply unpack_pack0; assumption.
  - apply unpack_pack1; assumption.
  - apply unpack_pack2; assumption.
Qed.

Lemma frame_round_trip_witness :
  fits_widths sample_fields /\
  spec_decode (fst (main_send_frame (setSendDataFromROSBus 0 sample_fields []))) =
    Some (VelocityVector 4095 0 0).
Proof.
  assert (H : fits_widths sample_fields) by (unfold fits_widths; cbn; lia).
  split; [exact H |].
  destruct (frame_round_trip 0 sample_fields H (or_introl eq_refl))
    as (p & Hp & Hd).
  rewrite Hd, <- Hp. reflexivity.
Defined.

(** The fields drawn by the callbacks are within the declared widths, so
    every frame [main] writes can be read back. *)
Lemma createRandomNumber_range min max r :
  min <= max -> min <= createRandomNumber min max r <= max.
Proof.
  intros H. unfold createRandomNumber, uniform_int_distribution.
  destruct (min =? max) eqn:He; [apply Z.eqb_eq in He; lia |].
  replace (min >? max) with false by (rewrite Z.gtb_ltb; symmetry; apply Z.ltb_ge; lia).
  pose proof (Z.mod_pos_bound r (max - min + 1)). lia.
Qed.

Lemma drawn_value_fits n r :
  0 <= n <= 16 ->
  0 <= uint16_t (createRandomNumber 0 (2 ^ n - 1) r) < 2 ^ n.
Proof.
  intros Hn.
  assert (H1 : 1 <= 2 ^ n) by (apply (Z.pow_le_mono_r 2 0 n); lia).
  assert (H2 : 2 ^ n <= 2 ^ 16) by (apply Z.pow_le_mono_r; lia).
  pose proof (createRandomNumber_range 0 (2 ^ n - 1) r).
  change (2 ^ 16) with 65536 in H2.
  rewrite BitArith.uint16_t_small; lia.
Qed.

Lemma main_callbacks_fit E k i g :
  fits_widths g -> fits_widths (main_callbacks E k i g).
Proof.
  intros (Hx & Hy & Ht & Hc & Hk). unfold main_callbacks, fits_widths.
  destruct i as [| [p | p |] | p]; try (destruct p);
    cbn [vectorCallback visionCallback kickerCallback
         x_vector y_vector th_vector calib_data command];
    repeat split; try assumption; try apply drawn_value_fits; lia.
Qed.

(** ** TransmissionScheduler *)

(** *** The send buffer *)

Lemma erase_all (buf : vu8) : erase buf 0 (length buf) = [].
Proof. unfold erase. rewrite skipn_all. reflexivity. Qed.

Lemma main_for_body_eq E k st i :
  main_for_body E k st i =
  let g := main_callbacks E k i (fields st) in
  let buf := setSendDataFromROSBus (uint8_t i) g (send_buffer st) in
  mkState g [] (serial st ++ fst (main_send_frame buf))
          (usleeps st) (loop_count st).
Proof.
  unfold main_for_body. cbv zeta. rewrite main_send_frame_eq.
  cbn [fst]. rewrite erase_all. reflexivity.
Qed.

Lemma fold_for_body_invariant E k l st :
  send_buffer st = [] ->
  send_buffer (fold_left (main_for_body E k) l st) = [] /\
  loop_count (fold_left (main_for_body E k) l st) = loop_count st /\
  usleeps (fold_left (main_for_body E k) l st) = usleeps st.
Proof.
  revert st. induction l as [| i l IH]; intros st H; [auto |].
  cbn [fold_left].
  destruct (IH (main_for_body E k st i)) as (H1 & H2 & H3).
  - rewrite main_for_body_eq. reflexivity.
  - rewrite H1, H2, H3, main_for_body_eq. auto.
Qed.

Lemma tick_state_buffer E us k : send_buffer (tick_state E us k) = [].
Proof.
  induction k as [| k IH]; [reflexivity |].
  cbn [tick_state]. unfold main_tick. cbn [send_buffer].
  apply fold_for_body_invariant. assumption.
Qed.

Lemma main_while_reaches fuel E P us k st :
  main_while fuel E P us k (tick_state E us k) = Some st ->
  exists n, st = tick_state E us n.
Proof.
  revert k. induction fuel as [| fuel IH]; intros k H; [discriminate |].
  cbn [main_while] in H. destruct (errorFlag E k).
  - exists k. congruence.
  - change (main_tick E us k (tick_state E us k))
      with (tick_state E us (S k)) in H.
    destruct (loop_count_enable P &&
              (loop_count (tick_state E us (S k)) >=? loop_length P)).
    + exists (S k). congruence.
    + apply (IH (S k)). assumption.
Qed.

(** One pass entered with an empty buffer: the frame written is that of the
    bytes packed in this pass, and the buffer is empty again. *)
Lemma main_for_body_from_empty E k st i :
  send_buffer st = [] ->
  send_buffer (main_for_body E k st i) = [] /\
  serial (main_for_body E k st i) =
    serial st ++
    fst (main_send_frame
           (setSendDataFromROSBus (uint8_t i) (fields (main_for_body E k st i)) [])).
Proof.
  intros H. rewrite main_for_body_eq. cbn [send_buffer serial fields].
  rewrite H. auto.
Qed.

Lemma pass_state_S E us k i :
  (i < 3)%nat ->
  pass_state E us k (S i) =
  main_for_body E k (pass_state E us k i) (Z.of_nat i).
Proof.
  intros H. unfold pass_state.
  destruct i as [| [| [| i]]]; [reflexivity | reflexivity | reflexivity | lia].
Qed.

Lemma pass_state_buffer E us k i : send_buffer (pass_state E us k i) = [].
Proof.
  unfold pass_state. apply fold_for_body_invariant, tick_state_buffer.
Qed.

(** C10.  In every iteration [k] of the loop the three passes start with an
    empty buffer and leave it empty, from the empty buffer [main] begins
    with to any state in which the loop is left; so what each pass writes is
    the frame of the bytes packed in that pass for its datatype alone. *)
Theorem send_buffer_empty_at_each_pack (E : env) (us : Z) (k : nat) :
  let s0 := pass_state E us k 0 in
  let s1 := pass_state E us k 1 in
  let s2 := pass_state E us k 2 in
  let s3 := pass_state E us k 3 in
  send_buffer state0 = [] /\
  s0 = tick_state E us k /\
  s1 = main_for_body E k s0 0 /\
  s2 = main_for_body E k s1 1 /\
  s3 = main_for_body E k s2 2 /\
  send_buffer s0 = [] /\ send_buffer s1 = [] /\
  send_buffer s2 = [] /\ send_buffer s3 = [] /\
  serial s1 =
    serial s0 ++ fst (main_send_frame (setSendDataFromROSBus 0 (fields s1) [])) /\
  serial s2 =
    serial s1 ++ fst (main_send_frame (setSendDataFromROSBus 1 (fields s2) [])) /\
  serial s3 =
    serial s2 ++ fst (main_send_frame (setSendDataFromROSBus 2 (fields s3) [])) /\
  send_buffer (tick_state E us (S k)) = send_buffer s3 /\
  serial (tick_state E us (S k)) = serial s3 /\
  (forall fuel P st,
     main_while fuel E P us 0 state0 = Some st -> send_buffer st = []).
Proof.
  intros s0 s1 s2 s3.
  assert (H0 : send_buffer s0 = []) by apply pass_state_buffer.
  assert (E1 : s1 = main_for_body E k s0 0) by reflexivity.
  assert (E2 : s2 = main_for_body E k s1 1) by reflexivity.
  assert (E3 : s3 = main_for_body E k s2 2) by reflexivity.
  destruct (main_for_body_from_empty E k s0 0 H0) as [H1 W1].
  rewrite <- E1 in H1, W1.
  destruct (main_for_body_from_empty E k s1 1 H1) as [H2 W2].
  rewrite <- E2 in H2, W2.
  destruct (main_for_body_from_empty E k s2 2 H2) as [H3 W3].
  rewrite <- E3 in H3, W3.
  repeat split; try assumption.
  intros fuel P st H.
  destruct (main_while_reaches fuel E P us 0 st H) as [n Hn].
  rewrite Hn. apply tick_state_buffer.
Qed.

Lemma fold_for_body_fields_fit E k l st :
  fits_widths (fields st) ->
  fits_widths (fields (fold_left (main_for_body E k) l st)).
Proof.
  revert st. induction l as [| i l IH]; intros st H; [assumption |].
  cbn [fold_left]. apply IH. rewrite main_for_body_eq. cbn [fields].
  apply main_callbacks_fit. assumption.
Qed.

Lemma tick_state_fields_fit E us k : fits_widths (fields (tick_state E us k)).
Proof.
  induction k as [| k IH].
  - unfold fits_widths; cbn; lia.
  - cbn [tick_state]. unfold main_tick. cbn [fields].
    apply fold_for_body_fields_fit. assumption.
Qed.

(** X13.  Every frame written in iteration [k] reads back as the tag and
    the fields it was packed from. *)
Corollary frames_of_tick_decode (E : env) (us : Z) (k : nat) (i : nat) :
  (i < 3)%nat ->
  let g := fields (pass_state E us k (S i)) in
  serial (pass_state E us k (S i)) =
    serial (pass_state E us k i) ++
    fst (main_send_frame (setSendDataFromROSBus (Z.of_nat i) g [])) /\
  exists p,
    payload_of (Z.of_nat i) g = Some p /\
    spec_decode (fst (main_send_frame (setSendDataFromROSBus (Z.of_nat i) g [])))
      = Some p.
Proof.
  intros Hi g.
  assert (Hg : fits_widths g)
    by (apply fold_for_body_fields_fit, tick_state_fields_fit).
  split.
  - subst g. rewrite pass_state_S by assumption.
    destruct (main_for_body_from_empty E k (pass_state E us k i) (Z.of_nat i)
                (pass_state_buffer E us k i)) as [_ W].
    rewrite W. do 3 f_equal.
    destruct i as [| [| [| i]]]; [reflexivity | reflexivity | reflexivity | lia].
  - rewrite spec_decode_frame.
    destruct i as [| [| [| i]]]; [| | | lia]; eexists;
      (split; [reflexivity |]).
    + apply unpack_pack0; assumption.
    + apply unpack_pack1; assumption.
    + apply unpack_pack2; assumption.
Qed.

(** *** Elapsed time *)

(** C8.  The source takes the difference of the [tv_usec] fields alone.  For
    a tick from 10.999000 s to 11.001000 s the duration is 2000 us; the
    source computes -998000 and, at 120 Hz, sleeps 1006333 us where
    [8333 - 2000] was due. *)
Theorem looptime_across_second_boundary :
  let tv_start := mkTimeval 10 999000 in
  let tv_end := mkTimeval 11 1000 in
  let E := mkEnv (fun _ => false) (fun _ _ => 0)
                 (fun _ c => match c with O => tv_start | _ => tv_end end) in
  spec_elapsed tv_start tv_end = 2000 /\
  looptime tv_start tv_end = -998000 /\
  looptime tv_start tv_end <> spec_elapsed tv_start tv_end /\
  usleeps (main_tick E (main_microsecond HZ) 0 state0) = [1006333].
Proof. repeat split. intro H. discriminate H. Qed.

(** X24.  With both readings in range, the computed [looptime] is the true
    duration exactly when the two readings fall in the same second. *)
Lemma looptime_within_one_second tv_start tv_end :
  0 <= tv_usec tv_start < 1000000 ->
  0 <= tv_usec tv_end < 1000000 ->
  (looptime tv_start tv_end = spec_elapsed tv_start tv_end <->
   tv_sec tv_end = tv_sec tv_start).
Proof.
  intros Hs He. unfold looptime, spec_elapsed.
  rewrite int_small by (change (2 ^ 31) with 2147483648; lia). lia.
Qed.

(** *** Termination report *)

Lemma loop_count_main_tick E us k st :
  send_buffer st = [] ->
  loop_count (main_tick E us k st) = int (loop_count st + 1).
Proof.
  intros H. unfold main_tick. cbn [loop_count].
  destruct (fold_for_body_invariant E k (for_range MAX_DATA_TYPE) st H)
    as (_ & H2 & _).
  rewrite H2. reflexivity.
Qed.

Lemma send_buffer_main_tick E us k st :
  send_buffer st = [] -> send_buffer (main_tick E us k st) = [].
Proof.
  intros H. unfold main_tick. cbn [send_buffer].
  apply fold_for_body_invariant. assumption.
Qed.

Section While.

Variables (E : env) (P : params) (us : Z).

Lemma main_while_S fuel k st :
  main_while (S fuel) E P us k st =
  if errorFlag E k then Some st
  else if loop_count_enable P &&
          (loop_count (main_tick E us k st) >=? loop_length P)
       then Some (main_tick E us k st)
       else main_while fuel E P us (S k) (main_tick E us k st).
Proof. reflexivity. Qed.

(** A set flag is enough for the loop to be left. *)
Lemma main_while_total n k st :
  errorFlag E (k + n) = true ->
  exists st', main_while (S n) E P us k st = Some st'.
Proof.
  revert k st. induction n as [| n IH]; intros k st H.
  - rewrite Nat.add_0_r in H. cbn [main_while]. rewrite H. eauto.
  - rewrite main_while_S. destruct (errorFlag E k); [eauto |].
    destruct (loop_count_enable P && _); [eauto |].
    apply IH. rewrite <- H. f_equal. lia.
Qed.

(** Cancelled at iteration [k + n], the bound not in the way. *)
Lemma main_while_cancelled n k st :
  send_buffer st = [] ->
  loop_count st = Z.of_nat k ->
  Z.of_nat (k + n) < 2 ^ 31 ->
  (forall j, (k <= j < k + n)%nat -> errorFlag E j = false) ->
  errorFlag E (k + n) = true ->
  loop_count_enable P = false \/ Z.of_nat (k + n) < loop_length P ->
  exists st', main_while (S n) E P us k st = Some st' /\
              loop_count st' = Z.of_nat (k + n).
Proof.
  revert k st. induction n as [| n IH]; intros k st Hb Hc Hlt Hno Hyes Hbound.
  - rewrite Nat.add_0_r in *. cbn [main_while]. rewrite Hyes. eauto.
  - rewrite main_while_S, (Hno k) by lia.
    assert (Hc' : loop_count (main_tick E us k st) = Z.of_nat (S k)).
    { rewrite loop_count_main_tick, Hc by assumption.
      rewrite int_small; change (2 ^ 31) with 2147483648 in *; lia. }
    assert (Hstop : loop_count_enable P &&
                    (loop_count (main_tick E us k st) >=? loop_length P) = false).
    { destruct Hbound as [Hd | Hd]; [rewrite Hd; reflexivity |].
      apply andb_false_iff. right. rewrite Hc', Z.geb_leb.
      apply Z.leb_gt. lia. }
    rewrite Hstop.
    replace (k + S n)%nat with (S k + n)%nat in * by lia.
    apply IH; auto using send_buffer_main_tick.
    intros j Hj. apply Hno. lia.
Qed.

(** Bounded mode, not cancelled: the loop is left when the count reaches
    [loop_length]. *)
Lemma main_while_bound n k st :
  send_buffer st = [] ->
  loop_count st = Z.of_nat k ->
  loop_count_enable P = true ->
  loop_length P = Z.of_nat (k + S n) ->
  loop_length P < 2 ^ 31 ->
  (forall j, (k <= j <= k + n)%nat -> errorFlag E j = false) ->
  exists st', main_while (S n) E P us k st = Some st' /\
              loop_count st' = loop_length P.
Proof.
  revert k st. induction n as [| n IH]; intros k st Hb Hc Hen HL Hlt Hno.
  - rewrite main_while_S, (Hno k) by lia.
    assert (Hc' : loop_count (main_tick E us k st) = Z.of_nat (S k)).
    { rewrite loop_count_main_tick, Hc by assumption.
      rewrite int_small; change (2 ^ 31) with 2147483648 in *; lia. }
    rewrite Hen, Hc'. cbn [andb].
    replace (Z.of_nat (S k) >=? loop_length P) with true
      by (rewrite Z.geb_leb; symmetry; apply Z.leb_le; lia).
    eexists. split; [reflexivity |]. rewrite Hc'. lia.
  - rewrite main_while_S, (Hno k) by lia.
    assert (Hc' : loop_count (main_tick E us k st) = Z.of_nat (S k)).
    { rewrite loop_count_main_tick, Hc by assumption.
      rewrite int_small; change (2 ^ 31) with 2147483648 in *; lia. }
    rewrite Hen, Hc'. cbn [andb].
    replace (Z.of_nat (S k) >=? loop_length P) with false
      by (rewrite Z.geb_leb; symmetry; apply Z.leb_gt; lia).
    apply IH; auto using send_buffer_main_tick.
    + rewrite HL. f_equal. lia.
    + intros j Hj. apply Hno. lia.
Qed.

End While.

Lemma hz_range argc argv :
  0 < hz (setParameterFromCommandLine argc argv) < 100000.
Proof.
  unfold setParameterFromCommandLine, HZ.
  destruct (argc >=? 2); destruct (argc >=? 3);
    try destruct (argv 2%nat <=? 0);
    try destruct ((argv 1%nat <=? 0) || (100000 <=? argv 1%nat)) eqn:H;
    cbn [hz]; try lia;
    apply orb_false_iff in H; destruct H as [H1 H2]; lia.
Qed.

Lemma unbounded_loop_length argc argv :
  loop_count_enable (setParameterFromCommandLine argc argv) = false ->
  loop_length (setParameterFromCommandLine argc argv) =
  hz (setParameterFromCommandLine argc argv).
Proof.
  unfold setParameterFromCommandLine.
  destruct (argc >=? 3); [| reflexivity].
  destruct (argv 2%nat <=? 0); [reflexivity | discriminate].
Qed.

Lemma bounded_loop_length argc argv :
  loop_count_enable (setParameterFromCommandLine argc argv) = true ->
  3 <= argc /\ 0 < argv 2%nat /\
  loop_length (setParameterFromCommandLine argc argv) = argv 2%nat.
Proof.
  unfold setParameterFromCommandLine.
  destruct (argc >=? 3) eqn:Ha; [| discriminate].
  destruct (argv 2%nat <=? 0) eqn:Hl; [discriminate |].
  intros _. cbn [loop_length]. rewrite Z.geb_leb in Ha.
  apply Z.leb_le in Ha. apply Z.leb_gt in Hl. auto.
Qed.

Lemma main_eq fuel argc argv E :
  main fuel argc argv E =
  let P := setParameterFromCommandLine argc argv in
  match main_while fuel E P (main_microsecond (hz P)) 0 state0 with
  | None => None
  | Some st =>
      Some (mkOutcome st
              (if loop_count st <? loop_length P
               then [Exit_with_signal_error] else []) 0)
  end.
Proof. reflexivity. Qed.

(** C7 (amended).  [main] returns 0 whenever it returns.  It writes the one
    diagnostic line exactly when the loop is left with [loop_count] below
    [loop_length], and nothing when [loop_length] is reached.  A set flag
    always ends the loop; without a flag, bounded mode ends it at
    [loop_length].  In unbounded mode [loop_length] is the tick rate [hz], so
    a cancellation before [hz] ticks does produce the diagnostic and a later
    one does not. *)
Theorem termination_report (argc : Z) (argv : nat -> Z) (E : env) :
  let P := setParameterFromCommandLine argc argv in
  let first_flag n :=
    errorFlag E n = true /\ forall j, (j < n)%nat -> errorFlag E j = false in
  (forall fuel out, main fuel argc argv E = Some out ->
     exit_status out = 0 /\
     (loop_count (final out) < loop_length P ->
      stderr out = [Exit_with_signal_error]) /\
     (loop_length P <= loop_count (final out) -> stderr out = [])) /\
  (forall n, errorFlag E n = true ->
     exists out, main (S n) argc argv E = Some out) /\
  (forall n, first_flag n -> Z.of_nat n < 2 ^ 31 ->
     loop_count_enable P = false \/ Z.of_nat n < loop_length P ->
     exists out, main (S n) argc argv E = Some out /\
       loop_count (final out) = Z.of_nat n /\
       stderr out =
         if Z.of_nat n <? loop_length P then [Exit_with_signal_error] else []) /\
  (loop_count_enable P = true -> loop_length P < 2 ^ 31 ->
   (forall j, Z.of_nat j < loop_length P -> errorFlag E j = false) ->
     exists out, main (Z.to_nat (loop_length P)) argc argv E = Some out /\
       loop_count (final out) = loop_length P /\ stderr out = []) /\
  (loop_count_enable P = false -> loop_length P = hz P).
Proof.
  intros P first_flag. repeat apply conj.
  - intros fuel out H. rewrite main_eq in H. cbv zeta in H. fold P in H.
    destruct (main_while fuel E P _ 0 state0) as [st |]; [| discriminate].
    injection H as <-. cbn [exit_status final stderr].
    split; [reflexivity |]. split; intros Hc.
    + apply Z.ltb_lt in Hc. rewrite Hc. reflexivity.
    + apply Z.ltb_ge in Hc. rewrite Hc. reflexivity.
  - intros n H. rewrite main_eq. cbv zeta. fold P.
    destruct (main_while_total E P (main_microsecond (hz P)) n 0 state0 H)
      as [st' Hst].
    rewrite Hst. eauto.
  - intros n [Hyes Hno] Hlt Hbound. rewrite main_eq. cbv zeta. fold P.
    destruct (main_while_cancelled E P (main_microsecond (hz P)) n 0 state0)
      as (st' & Hst & Hc); auto.
    + intros j Hj. apply Hno. lia.
    + rewrite Hst. eexists. split; [reflexivity |].
      cbn [final stderr]. rewrite Hc. auto.
  - intros Hen Hlt Hno. rewrite main_eq. cbv zeta. fold P.
    destruct (bounded_loop_length argc argv Hen) as (_ & Hpos & HL).
    fold P in HL.
    assert (HS : Z.to_nat (loop_length P) = S (Z.to_nat (loop_length P) - 1))
      by lia.
    rewrite HS.
    destruct (main_while_bound E P (main_microsecond (hz P))
                (Z.to_nat (loop_length P) - 1) 0 state0)
      as (st' & Hst & Hc); auto.
    + lia.
    + intros j Hj. apply Hno. lia.
    + rewrite Hst. eexists. split; [reflexivity |].
      cbn [final stderr]. split; [assumption |].
      rewrite Hc, Z.ltb_irrefl. reflexivity.
  - apply unbounded_loop_length.
Qed.

Lemma termination_report_witness :
  exists out,
    main 6 1 no_args (env_cancelled_at 5) = Some out /\
    loop_count (final out) = 5 /\
    stderr out = [Exit_with_signal_error].
Proof.
  destruct (termination_report 1 no_args (env_cancelled_at 5))
    as (_ & _ & H & _).
  destruct (H 5%nat) as (out & H1 & H2 & H3).
  - split; [reflexivity |]. intros j Hj.
    do 5 (destruct j as [| j]; [reflexivity |]). lia.
  - reflexivity.
  - left. reflexivity.
  - exists out. auto.
Defined.

(** C7, as stated, fails for its last part: with no arguments the loop runs
    unbounded at 120 Hz; cancelled after five ticks, [main] writes the
    diagnostic. *)
Lemma diagnostic_in_unbounded_mode :
  loop_count_enable (setParameterFromCommandLine 1 no_args) = false /\
  option_map (fun out => (loop_count (final out), stderr out, exit_status out))
             (main 6 1 no_args (env_cancelled_at 5)) =
    Some (5, [Exit_with_signal_error], 0).
Proof. split; vm_compute; reflexivity. Qed.

(** * Further properties of the source *)

(** ** createRandomNumber and the callbacks *)

(** X1.  [createRandomNumber] accepts its bounds in either order: the result
    lies between the smaller and the larger, equal bounds give that value,
    and swapping the arguments changes nothing. *)
Theorem createRandomNumber_any_order (a b r : Z) :
  Z.min a b <= createRandomNumber a b r <= Z.max a b /\
  createRandomNumber a a r = a /\
  createRandomNumber a b r = createRandomNumber b a r.
Proof.
  unfold createRandomNumber, uniform_int_distribution.
  rewrite Z.eqb_refl, (Z.eqb_sym b a).
  destruct (a =? b) eqn:He.
  - apply Z.eqb_eq in He. subst b. lia.
  - apply Z.eqb_neq in He. rewrite !Z.gtb_ltb.
    destruct (b <? a) eqn:Hba; destruct (a <? b) eqn:Hab;
      try (apply Z.ltb_lt in Hba); try (apply Z.ltb_ge in Hba);
      try (apply Z.ltb_lt in Hab); try (apply Z.ltb_ge in Hab); try lia.
    + pose proof (Z.mod_pos_bound r (a - b + 1)). lia.
    + pose proof (Z.mod_pos_bound r (b - a + 1)). lia.
Qed.

(** X2.  Each callback writes its own fields only, with values inside the
    declared widths, whatever the draws. *)
Theorem callbacks_write_own_fields (r0 r1 r2 : Z) (g : globals) :
  let gv := vectorCallback r0 r1 r2 g in
  let gc := visionCallback r0 g in
  let gk := kickerCallback r0 g in
  (0 <= x_vector gv < 2 ^ 12 /\ 0 <= y_vector gv < 2 ^ 12 /\
   0 <= th_vector gv < 2 ^ 12 /\
   calib_data gv = calib_data g /\ command gv = command g) /\
  (0 <= calib_data gc < 2 ^ 13 /\
   x_vector gc = x_vector g /\ y_vector gc = y_vector g /\
   th_vector gc = th_vector g /\ command gc = command g) /\
  (0 <= command gk < 2 ^ 5 /\
   x_vector gk = x_vector g /\ y_vector gk = y_vector g /\
   th_vector gk = th_vector g /\ calib_data gk = calib_data g).
Proof.
  cbn [vectorCallback visionCallback kickerCallback
       x_vector y_vector th_vector calib_data command].
  repeat split; apply drawn_value_fits; lia.
Qed.

(** X3.  In every state the loop passes through, at the start of an
    iteration and between the passes of the [for] loop, the five fields are
    within the declared widths. *)
Theorem fields_always_fit (E : env) (us : Z) (k i : nat) :
  fits_widths (fields (tick_state E us k)) /\
  fits_widths (fields (pass_state E us k i)).
Proof.
  split; [apply tick_state_fields_fit |].
  unfold pass_state. apply fold_for_body_fields_fit, tick_state_fields_fit.
Qed.

(** ** setSendDataFromROSBus without width assumptions *)

Lemma pack_appends datatype g buf :
  setSendDataFromROSBus datatype g buf =
  buf ++ setSendDataFromROSBus datatype g [].
Proof.
  unfold setSendDataFromROSBus, push_back.
  destruct datatype as [| [p | p |] | p]; try destruct p;
    cbn [app]; rewrite <- ?app_assoc, ?app_nil_r; reflexivity.
Qed.

Lemma pack_bytes_are_bytes datatype g :
  Forall is_byte (setSendDataFromROSBus datatype g []).
Proof.
  unfold setSendDataFromROSBus, push_back, is_byte.
  destruct datatype as [| [p | p |] | p]; try destruct p; cbn [app];
    repeat (constructor; [apply BitArith.uint8_t_range |]); constructor.
Qed.

(** X4.  The packer only appends: what the buffer held stays in front, the
    number of bytes added is 5, 2, 1 or 0 by the tag alone, and each added
    byte is a byte value, whatever the fields hold. *)
Theorem pack_appends_fixed_length (datatype : Z) (g : globals) (buf : vu8) :
  setSendDataFromROSBus datatype g buf =
    buf ++ setSendDataFromROSBus datatype g [] /\
  length (setSendDataFromROSBus datatype g []) =
    match datatype with
    | 0 => 5%nat | 1 => 2%nat | 2 => 1%nat | _ => 0%nat
    end /\
  Forall (fun b => 0 <= b < 256) (setSendDataFromROSBus datatype g []).
Proof.
  split; [apply pack_appends |]. split; [| apply pack_bytes_are_bytes].
  unfold setSendDataFromROSBus, push_back.
  destruct datatype as [| [p | p |] | p]; try destruct p; reflexivity.
Qed.

Lemma is_special_false_iff b :
  is_special b = false <-> b <> 0x7D /\ b <> 0x7E.
Proof.
  split; [apply is_special_false |]. intros [H1 H2]. unfold is_special.
  apply orb_false_iff. split; apply Z.eqb_neq; assumption.
Qed.

Lemma first_byte_arith datatype g :
  fits_widths g -> datatype = 0 \/ datatype = 1 \/ datatype = 2 ->
  exists b rest,
    setSendDataFromROSBus datatype g [] = b :: rest /\
    32 * datatype <= b < 32 * datatype + 32.
Proof.
  intros Hg [H | [H | H]]; subst datatype.
  - rewrite pack0_arith by assumption. destruct Hg as (Hx & _).
    eexists. eexists. split; [reflexivity |]. divmod.
  - rewrite pack1_arith by assumption. destruct Hg as (_ & _ & _ & Hc & _).
    eexists. eexists. split; [reflexivity |]. divmod.
  - rewrite pack2_arith by assumption. destruct Hg as (_ & _ & _ & _ & Hk).
    eexists. eexists. split; [reflexivity |]. divmod.
Qed.

(** X5.  Within the declared widths the first payload byte has the tag in its
    three high bits and is below 0x60, so the byte after the header is never
    an escape byte. *)
Theorem first_byte_carries_tag (datatype : Z) (g : globals) :
  fits_widths g ->
  datatype = 0 \/ datatype = 1 \/ datatype = 2 ->
  exists b rest ws,
    setSendDataFromROSBus datatype g [] = b :: rest /\
    Z.shiftr b 5 = datatype /\ b < 0x60 /\
    fst (main_send_frame (setSendDataFromROSBus datatype g [])) =
      0x7D :: b :: ws.
Proof.
  intros Hg Hd.
  destruct (first_byte_arith datatype g Hg Hd) as (b & rest & Hp & Hb).
  exists b, rest. rewrite Hp, main_send_frame_eq. cbn [fst flat_map].
  assert (Hs : is_special b = false).
  { apply is_special_false_iff. destruct Hd as [H | [H | H]]; subst; lia. }
  unfold stuffed at 1. rewrite Hs. eexists. repeat split.
  - rewrite Z.shiftr_div_pow2 by lia.
    destruct Hd as [H | [H | H]]; subst; divmod.
  - destruct Hd as [H | [H | H]]; subst; lia.
Qed.

Lemma first_byte_carries_tag_witness :
  exists b rest ws,
    setSendDataFromROSBus 1 calib_0x7D [] = b :: rest /\
    Z.shiftr b 5 = 1 /\ b < 0x60 /\
    fst (main_send_frame (setSendDataFromROSBus 1 calib_0x7D [])) =
      0x7D :: b :: ws.
Proof.
  apply (first_byte_carries_tag 1 calib_0x7D).
  - unfold fits_widths; cbn; lia.
  - right. left. reflexivity.
Defined.


(** ** The frame writer *)

Lemma sum_masked l :
  sum (map masked l) = sum l - 32 * Z.of_nat (count_special l).
Proof.
  unfold count_special. induction l as [| b l IH]; [reflexivity |].
  cbn [map filter]. rewrite !sum_cons, IH. unfold masked.
  destruct (is_special b) eqn:Hb; cbn [length]; [| lia].
  destruct (is_special_cases b Hb); subst b;
    unfold HEAD_BYTE, ESCAPE_BYTE, ESCAPE_MASK; cbn [Z.lxor Pos.lxor]; lia.
Qed.

(** X7.  The checksum in terms of the buffer before masking: header plus
    the buffer's bytes, less 0x20 for each byte that was escaped. *)
Theorem checksum_of_original_bytes (buf : vu8) :
  let ws := fst (main_send_frame buf) in
  (exists pre,
     ws = pre ++ stuffed
            ((0x7D + sum buf - 0x20 * Z.of_nat (count_special buf)) mod 256)) /\
  Z.land (snd (main_send_buffer buf HEAD_BYTE)) 0xFF =
    (0x7D + sum buf - 0x20 * Z.of_nat (count_special buf)) mod 256.
Proof.
  cbv zeta. rewrite main_send_frame_eq, main_send_buffer_eq. cbn [fst snd].
  rewrite BitArith.land_0xFF, accumulate_mod256.
  unfold frame_checksum. rewrite sum_masked.
  replace (HEAD_BYTE + (sum buf - 32 * Z.of_nat (count_special buf)))
    with (0x7D + sum buf - 0x20 * Z.of_nat (count_special buf))
    by (unfold HEAD_BYTE; lia).
  split; [| reflexivity].
  exists (HEAD_BYTE :: flat_map stuffed buf). reflexivity.
Qed.

Lemma frame_as_stuffed buf :
  fst (main_send_frame buf) =
  HEAD_BYTE :: flat_map stuffed (buf ++ [frame_checksum buf]).
Proof.
  rewrite main_send_frame_eq, flat_map_app. cbn [fst flat_map].
  rewrite app_nil_r. reflexivity.
Qed.

(** X8.  Two buffers that give the same bytes on the line are equal: the
    stuffing loses nothing. *)
Theorem frame_injective (buf1 buf2 : vu8) :
  fst (main_send_frame buf1) = fst (main_send_frame buf2) -> buf1 = buf2.
Proof.
  rewrite !frame_as_stuffed. intros H. injection H as H.
  apply (f_equal spec_unescape) in H. rewrite !unescape_stuffed in H.
  apply app_inj_tail in H. tauto.
Qed.

Lemma frame_injective_witness :
  fst (main_send_frame [0x7D; 0x01]) = fst (main_send_frame [0x7D; 0x01]) /\
  [0x7D; 0x01] = [0x7D; 0x01].
Proof.
  split; [reflexivity |].
  apply (frame_injective [0x7D; 0x01] [0x7D; 0x01]). reflexivity.
Defined.

Lemma stuffed_last b : exists pre, stuffed b = pre ++ [masked b].
Proof.
  unfold stuffed, masked. destruct (is_special b).
  - exists [ESCAPE_BYTE]. reflexivity.
  - exists []. reflexivity.
Qed.

(** X9.  A frame never ends with 0x7D or 0x7E: its last byte is the checksum
    as written, so an escape byte is never the last byte before the next
    header. *)
Theorem frame_last_byte_plain (buf : vu8) :
  is_special (last (fst (main_send_frame buf)) 0) = false /\
  last (fst (main_send_frame buf)) 0 = masked (frame_checksum buf).
Proof.
  rewrite main_send_frame_eq. cbn [fst].
  destruct (stuffed_last (frame_checksum buf)) as [pre Hpre].
  rewrite Hpre, app_assoc, app_comm_cons, last_last.
  split; [apply masked_not_special | reflexivity].
Qed.

Lemma stuffed_bytes l : Forall is_byte l -> Forall is_byte (flat_map stuffed l).
Proof.
  induction 1 as [| b l Hb Hl IH]; [constructor |].
  cbn [flat_map]. apply Forall_app. split; [| assumption].
  unfold stuffed. destruct (is_special b) eqn:Hs.
  - destruct (is_special_cases b Hs); subst b;
      (constructor;
       [unfold is_byte, HEAD_BYTE, ESCAPE_BYTE, ESCAPE_MASK; cbn; lia |]);
      (constructor;
       [unfold is_byte, HEAD_BYTE, ESCAPE_BYTE, ESCAPE_MASK; cbn; lia
       | constructor]).
  - constructor; [assumption | constructor].
Qed.

Lemma frame_bytes buf :
  Forall is_byte buf -> Forall is_byte (fst (main_send_frame buf)).
Proof.
  intros H. rewrite frame_as_stuffed. constructor.
  - unfold is_byte, HEAD_BYTE. lia.
  - apply stuffed_bytes, Forall_app. split; [assumption |].
    constructor; [| constructor]. unfold is_byte, frame_checksum.
    apply Z.mod_pos_bound. lia.
Qed.

Lemma count_headers_stuffed l : count_headers (flat_map stuffed l) = 0%nat.
Proof.
  unfold count_headers. apply count_occ_not_In. intros H.
  apply In_nth_error in H. destruct H as [i Hi].
  exact (stuffed_no_header l i Hi).
Qed.

(** X10.  Each frame holds the header value exactly once, as its first
    byte. *)
Theorem one_header_per_frame (buf : vu8) :
  count_headers (fst (main_send_frame buf)) = 1%nat /\
  hd 0 (fst (main_send_frame buf)) = 0x7D.
Proof.
  rewrite frame_as_stuffed. split; [| reflexivity].
  unfold count_headers. rewrite count_occ_cons_eq by reflexivity.
  f_equal. apply count_headers_stuffed.
Qed.

(** *** Frame sizes by payload kind *)

Lemma length_frame buf :
  length (fst (main_send_frame buf)) =
  (length buf + 2 + count_special buf
   + (if is_special (frame_checksum buf) then 1 else 0))%nat.
Proof.
  rewrite main_send_frame_eq. cbn [fst length].
  rewrite length_app, length_flat_map_stuffed, length_stuffed.
  destruct (is_special (frame_checksum buf)); lia.
Qed.

Lemma count_special_cons b l :
  count_special (b :: l) =
  ((if is_special b then 1 else 0) + count_special l)%nat.
Proof. unfold count_special. cbn [filter]. destruct (is_special b); reflexivity. Qed.

Lemma count_special_velocity g :
  fits_widths g -> (count_special (setSendDataFromROSBus 0 g []) <= 3)%nat.
Proof.
  intros Hg. rewrite pack0_arith by assumption.
  destruct Hg as (Hx & Hy & Ht & _). cbn [app].
  rewrite !count_special_cons.
  replace (is_special (x_vector g / 128)) with false
    by (symmetry; apply is_special_false_iff; divmod).
  replace (is_special (y_vector g mod 8 * 32 + th_vector g / 256)) with false
    by (symmetry; apply is_special_false_iff; divmod).
  change (count_special []) with 0%nat.
  repeat match goal with |- context [is_special ?b] =>
    destruct (is_special b) end; lia.
Qed.

Lemma count_special_calibration g :
  fits_widths g -> (count_special (setSendDataFromROSBus 1 g []) <= 1)%nat.
Proof.
  intros Hg. rewrite pack1_arith by assumption.
  destruct Hg as (_ & _ & _ & Hc & _). cbn [app].
  rewrite !count_special_cons.
  replace (is_special (32 + calib_data g / 256)) with false
    by (symmetry; apply is_special_false_iff; divmod).
  change (count_special []) with 0%nat.
  destruct (is_special _); lia.
Qed.

Lemma kicker_frame g :
  fits_widths g ->
  fst (main_send_frame (setSendDataFromROSBus 2 g [])) =
  [0x7D; 0x40 + command g; 0xBD + command g].
Proof.
  intros Hg. rewrite pack2_arith by assumption.
  destruct Hg as (_ & _ & _ & _ & Hk). cbn [app].
  rewrite main_send_frame_eq. cbn [fst flat_map]. rewrite app_nil_r.
  assert (Hs : is_special (64 + command g) = false)
    by (apply is_special_false_iff; divmod).
  assert (Hc : frame_checksum [64 + command g] = 189 + command g).
  { unfold frame_checksum. cbn [map]. unfold masked. rewrite Hs.
    rewrite sum_cons. change (sum []) with 0. unfold HEAD_BYTE. divmod. }
  rewrite Hc. unfold stuffed. rewrite Hs.
  replace (is_special (189 + command g)) with false
    by (symmetry; apply is_special_false_iff; divmod).
  reflexivity.
Qed.

(** X11.  A kicker frame is never stuffed: for a command within its five
    bits it is the three bytes header, [0x40 + command], [0xBD + command]. *)
Theorem kicker_frame_is_three_bytes (g : globals) :
  0 <= command g < 2 ^ 5 ->
  fst (main_send_frame (setSendDataFromROSBus 2 g [])) =
  [0x7D; 0x40 + command g; 0xBD + command g].
Proof.
  intros Hk.
  assert (E : setSendDataFromROSBus 2 g [] =
              setSendDataFromROSBus 2 (mkGlobals 0 0 0 0 (command g)) [])
    by reflexivity.
  rewrite E. apply (kicker_frame (mkGlobals 0 0 0 0 (command g))).
  unfold fits_widths. cbn [x_vector y_vector th_vector calib_data command].
  pow2s. lia.
Qed.

Lemma kicker_frame_is_three_bytes_witness :
  fst (main_send_frame (setSendDataFromROSBus 2 (mkGlobals 0 0 0 0 31) [])) =
  [0x7D; 0x5F; 0xDC].
Proof.
  apply (kicker_frame_is_three_bytes (mkGlobals 0 0 0 0 31)). cbn. lia.
Defined.

Lemma calibration_frame_length g :
  fits_widths g ->
  (4 <= length (fst (main_send_frame (setSendDataFromROSBus 1 g []))) <= 5)%nat.
Proof.
  intros Hg. rewrite pack1_arith by assumption.
  destruct Hg as (_ & _ & _ & Hc & _). cbn [app].
  rewrite length_frame, !count_special_cons.
  change (count_special []) with 0%nat. cbn [length].
  assert (H0 : is_special (32 + calib_data g / 256) = false)
    by (apply is_special_false_iff; divmod).
  rewrite H0.
  destruct (is_special (calib_data g mod 256)) eqn:H1;
    [| destruct (is_special (frame_checksum _)); lia].
  replace (is_special (frame_checksum _)) with false; [lia |].
  symmetry. apply is_special_false_iff.
  unfold frame_checksum. cbn [map]. unfold masked. rewrite H0, H1.
  rewrite !sum_cons. change (sum []) with 0.
  destruct (is_special_cases _ H1) as [H | H]; rewrite H;
    unfold HEAD_BYTE, ESCAPE_BYTE, ESCAPE_MASK; cbn [Z.lxor Pos.lxor]; divmod.
Qed.

Lemma frame_sizes g :
  fits_widths g ->
  (7 <= length (fst (main_send_frame (setSendDataFromROSBus 0 g []))) <= 11)%nat /\
  (4 <= length (fst (main_send_frame (setSendDataFromROSBus 1 g []))) <= 5)%nat /\
  length (fst (main_send_frame (setSendDataFromROSBus 2 g []))) = 3%nat.
Proof.
  intros Hg. rewrite kicker_frame by assumption.
  split; [| split; [apply calibration_frame_length; assumption | reflexivity]].
  rewrite length_frame.
  pose proof (count_special_velocity g Hg).
  assert (L0 : length (setSendDataFromROSBus 0 g []) = 5%nat) by reflexivity.
  rewrite L0. destruct (is_special (frame_checksum _)); lia.
Qed.

(** X12.  Within the declared widths a velocity frame takes 7 to 11 bytes on
    the line, a calibration frame 4 or 5 and a kicker frame 3: the first
    payload byte of each and the fourth of a velocity vector never need an
    escape, and a calibration frame never has both its second byte and its
    checksum escaped. *)
Theorem frame_sizes_by_kind (g : globals) :
  fits_widths g ->
  (7 <= length (fst (main_send_frame (setSendDataFromROSBus 0 g []))) <= 11)%nat /\
  (4 <= length (fst (main_send_frame (setSendDataFromROSBus 1 g []))) <= 5)%nat /\
  length (fst (main_send_frame (setSendDataFromROSBus 2 g []))) = 3%nat /\
  (count_special (setSendDataFromROSBus 0 g []) <= 3)%nat /\
  (count_special (setSendDataFromROSBus 1 g []) <= 1)%nat.
Proof.
  intros Hg. destruct (frame_sizes g Hg) as (H0 & H1 & H2).
  split; [exact H0 |]. split; [exact H1 |]. split; [exact H2 |].
  split; [apply count_special_velocity | apply count_special_calibration];
    assumption.
Qed.

Lemma frame_sizes_by_kind_witness :
  fits_widths (mkGlobals 62 3055 2174 0x7D 0) /\
  (length (fst (main_send_frame
                  (setSendDataFromROSBus 0 (mkGlobals 62 3055 2174 0x7D 0) [])))
     <= 11)%nat.
Proof.
  assert (Hg : fits_widths (mkGlobals 62 3055 2174 0x7D 0))
    by (unfold fits_widths; cbn; lia).
  split; [exact Hg |].
  destruct (frame_sizes_by_kind _ Hg) as ((_ & H) & _). exact H.
Defined.

(** Both upper bounds are reached. *)
Example frame_sizes_reached :
  length (fst (main_send_frame
                 (setSendDataFromROSBus 0 (mkGlobals 62 3055 2174 0x7D 0) [])))
    = 11%nat /\
  length (fst (main_send_frame
                 (setSendDataFromROSBus 1 (mkGlobals 62 3055 2174 0x7D 0) [])))
    = 5%nat.
Proof. split; reflexivity. Qed.

(** ** The serial output of the loop *)

Lemma serial_pass E us k i :
  (i < 3)%nat ->
  serial (pass_state E us k (S i)) =
  serial (pass_state E us k i) ++ pass_frame E us k i.
Proof.
  intros Hi. unfold pass_frame. rewrite pass_state_S by assumption.
  destruct (main_for_body_from_empty E k (pass_state E us k i) (Z.of_nat i)
              (pass_state_buffer E us k i)) as [_ W].
  rewrite W. do 3 f_equal.
  destruct i as [| [| [| i]]]; [reflexivity | reflexivity | reflexivity | lia].
Qed.

Lemma serial_tick E us k :
  serial (tick_state E us (S k)) =
  serial (tick_state E us k) ++
  pass_frame E us k 0 ++ pass_frame E us k 1 ++ pass_frame E us k 2.
Proof.
  change (serial (tick_state E us (S k))) with (serial (pass_state E us k 3)).
  rewrite !serial_pass by lia. rewrite <- !app_assoc. reflexivity.
Qed.

Lemma pass_fields_fit E us k i :
  fits_widths (fields (pass_state E us k i)).
Proof.
  unfold pass_state. apply fold_for_body_fields_fit, tick_state_fields_fit.
Qed.

Lemma frames_of_tick_decode_witness :
  exists p,
    payload_of 0 (fields (pass_state (env_cancelled_at 5) 8333 0 1)) = Some p /\
    spec_decode (pass_frame (env_cancelled_at 5) 8333 0 0) = Some p.
Proof.
  assert (H : (0 < 3)%nat) by lia.
  destruct (frames_of_tick_decode (env_cancelled_at 5) 8333 0 0 H) as [_ Hd].
  exact Hd.
Defined.

(** X14.  An iteration of the loop appends exactly three frames to the serial
    output, for the tags 0, 1, 2 in this order, each built from the fields
    as they are after that pass's callback; earlier output is never
    changed. *)
Theorem serial_grows_by_three_frames (E : env) (us : Z) (k : nat) :
  let frame i :=
    fst (main_send_frame
           (setSendDataFromROSBus (Z.of_nat i)
              (fields (pass_state E us k (S i))) [])) in
  serial (tick_state E us (S k)) =
    serial (tick_state E us k) ++ frame 0%nat ++ frame 1%nat ++ frame 2%nat /\
  fields (pass_state E us k 1) =
    main_callbacks E k 0 (fields (tick_state E us k)) /\
  fields (pass_state E us k 2) =
    main_callbacks E k 1 (fields (pass_state E us k 1)) /\
  fields (pass_state E us k 3) =
    main_callbacks E k 2 (fields (pass_state E us k 2)) /\
  fields (tick_state E us (S k)) = fields (pass_state E us k 3).
Proof.
  cbv zeta. split; [apply serial_tick |].
  repeat split; rewrite pass_state_S by lia;
    rewrite main_for_body_eq; reflexivity.
Qed.

Lemma count_headers_app l1 l2 :
  count_headers (l1 ++ l2) = (count_headers l1 + count_headers l2)%nat.
Proof. unfold count_headers. apply count_occ_app. Qed.

Lemma count_headers_frame buf :
  count_headers (fst (main_send_frame buf)) = 1%nat.
Proof.
  rewrite frame_as_stuffed. unfold count_headers.
  rewrite count_occ_cons_eq by reflexivity. f_equal.
  apply count_headers_stuffed.
Qed.

Lemma headers_in_serial_aux E us k :
  count_headers (serial (tick_state E us k)) = (3 * k)%nat.
Proof.
  induction k as [| k IH]; [reflexivity |].
  rewrite serial_tick, !count_headers_app, IH. unfold pass_frame.
  rewrite !count_headers_frame. lia.
Qed.

(** X15.  After [k] iterations the serial output holds the header value
    exactly [3 * k] times, each frame contributing only its first byte; so
    two different numbers of iterations never give the same output. *)
Theorem headers_in_serial (E : env) (us : Z) (k : nat) :
  count_headers (serial (tick_state E us k)) = (3 * k)%nat /\
  (forall k', serial (tick_state E us k) = serial (tick_state E us k') ->
              k = k').
Proof.
  split; [apply headers_in_serial_aux |].
  intros k' H. apply (f_equal count_headers) in H.
  rewrite !headers_in_serial_aux in H. lia.
Qed.

(** X16.  Every iteration puts between 14 and 19 bytes on the line, so after
    [k] iterations the output has between [14 * k] and [19 * k] bytes. *)
Theorem serial_length_bounds (E : env) (us : Z) (k : nat) :
  (14 * k <= length (serial (tick_state E us k)) <= 19 * k)%nat /\
  (length (serial (tick_state E us k)) + 14 <=
   length (serial (tick_state E us (S k))) <=
   length (serial (tick_state E us k)) + 19)%nat.
Proof.
  assert (Step : forall j,
    (length (serial (tick_state E us j)) + 14 <=
     length (serial (tick_state E us (S j))) <=
     length (serial (tick_state E us j)) + 19)%nat).
  { intros j. rewrite serial_tick, !length_app. unfold pass_frame.
    destruct (frame_sizes _ (pass_fields_fit E us j 1)) as (H0 & _ & _).
    destruct (frame_sizes _ (pass_fields_fit E us j 2)) as (_ & H1 & _).
    destruct (frame_sizes _ (pass_fields_fit E us j 3)) as (_ & _ & H2).
    cbn [Z.of_nat Pos.of_succ_nat Pos.succ] in *. lia. }
  split; [| apply Step].
  induction k as [| k IH]; [cbn; lia |].
  specialize (Step k). lia.
Qed.

(** X17.  Everything handed to [write] is a byte value. *)
Theorem serial_holds_bytes (E : env) (us : Z) (k : nat) :
  Forall (fun b => 0 <= b < 256) (serial (tick_state E us k)).
Proof.
  induction k as [| k IH]; [constructor |].
  rewrite serial_tick. unfold pass_frame.
  repeat (apply Forall_app; split); try assumption;
    apply frame_bytes, pack_bytes_are_bytes.
Qed.

(** ** The loop *)


Lemma usleeps_main_tick E us k st :
  send_buffer st = [] ->
  usleeps (main_tick E us k st) =
  usleeps st ++
  (if looptime (gettimeofday E k 0%nat) (gettimeofday E k 1%nat) <? us
   then [us - looptime (gettimeofday E k 0%nat) (gettimeofday E k 1%nat)]
   else []).
Proof.
  intros H. unfold main_tick. cbn [usleeps].
  destruct (fold_for_body_invariant E k (for_range MAX_DATA_TYPE) st H)
    as (_ & _ & H3).
  rewrite H3. destruct (_ <? us); [reflexivity | rewrite app_nil_r; reflexivity].
Qed.

(** X18.  [usleep] is called at most once per iteration and only with a
    strictly positive argument; with both clock readings in range the
    argument is below the period plus one second. *)
Theorem usleep_arguments (E : env) (us : Z) (k : nat) :
  (length (usleeps (tick_state E us k)) <= k)%nat /\
  Forall (fun u => 0 < u) (usleeps (tick_state E us k)) /\
  ((forall j c, 0 <= tv_usec (gettimeofday E j c) < 1000000) ->
   Forall (fun u => u < us + 1000000) (usleeps (tick_state E us k))).
Proof.
  induction k as [| k (IH1 & IH2 & IH3)].
  - split; [cbn; lia | split; [constructor | intros _; constructor]].
  - cbn [tick_state]. rewrite usleeps_main_tick by apply tick_state_buffer.
    destruct (_ <? us) eqn:Hlt.
    + apply Z.ltb_lt in Hlt. rewrite length_app. cbn [length].
      split; [lia |]. split.
      * apply Forall_app. split; [assumption |].
        constructor; [lia | constructor].
      * intros Hclock. apply Forall_app. split; [auto |].
        constructor; [| constructor].
        pose proof (Hclock k 0%nat). pose proof (Hclock k 1%nat).
        unfold looptime in *.
        rewrite int_small in * by (change (2 ^ 31) with 2147483648; lia).
        lia.
    + rewrite app_nil_r. split; [lia |]. split; auto.
Qed.

Lemma loop_length_positive argc argv :
  0 < loop_length (setParameterFromCommandLine argc argv).
Proof.
  pose proof (hz_range argc argv) as Hhz.
  destruct (loop_count_enable (setParameterFromCommandLine argc argv)) eqn:He.
  - destruct (bounded_loop_length argc argv He) as (_ & Hp & HL). lia.
  - rewrite (unbounded_loop_length argc argv He). lia.
Qed.

(** X19.  Command line fallbacks: the rate is the first argument when it
    lies strictly between 0 and 100000 and 120 otherwise, so it is never
    zero; the count is bounded exactly when a positive second argument is
    given; the loop length is positive in either mode. *)
Theorem command_line_fallbacks (argc : Z) (argv : nat -> Z) :
  let P := setParameterFromCommandLine argc argv in
  0 < hz P < 100000 /\
  0 < loop_length P /\
  hz P = (if (2 <=? argc) && (0 <? argv 1%nat) && (argv 1%nat <? 100000)
          then argv 1%nat else 120) /\
  loop_count_enable P = (3 <=? argc) && (0 <? argv 2%nat) /\
  loop_length P = (if loop_count_enable P then argv 2%nat else hz P).
Proof.
  cbv zeta. split; [apply hz_range |]. split; [apply loop_length_positive |].
  unfold setParameterFromCommandLine, HZ. rewrite !Z.geb_leb.
  destruct (2 <=? argc) eqn:H2; destruct (3 <=? argc) eqn:H3;
    destruct (argv 1%nat <=? 0) eqn:Ha; destruct (100000 <=? argv 1%nat) eqn:Hb;
    destruct (argv 2%nat <=? 0) eqn:Hc;
    cbn [orb andb hz loop_length loop_count_enable];
    repeat match goal with
    | H : (_ <=? _) = true |- _ => apply Z.leb_le in H
    | H : (_ <=? _) = false |- _ => apply Z.leb_gt in H
    end;
    repeat match goal with
    | |- context [?a <? ?b] =>
        let Hx := fresh in
        destruct (a <? b) eqn:Hx;
        [apply Z.ltb_lt in Hx | apply Z.ltb_ge in Hx]
    end;
    cbn [andb]; repeat split; try reflexivity; lia.
Qed.

(** X20.  A flag already set when the loop is first tested: nothing is
    written to the serial port, no tick is counted, and the diagnostic is
    printed in either mode, since the loop length is always positive. *)
Theorem cancelled_before_first_tick (fuel : nat) (argc : Z) (argv : nat -> Z)
    (E : env) :
  errorFlag E 0 = true ->
  main (S fuel) argc argv E =
  Some (mkOutcome state0 [Exit_with_signal_error] 0).
Proof.
  intros H. rewrite main_eq. cbv zeta. rewrite main_while_S, H.
  pose proof (loop_length_positive argc argv) as Hp.
  replace (loop_count state0 <? _) with true; [reflexivity |].
  symmetry. apply Z.ltb_lt. exact Hp.
Qed.

Lemma cancelled_before_first_tick_witness :
  main 1 1 no_args (env_cancelled_at 0) =
  Some (mkOutcome state0 [Exit_with_signal_error] 0).
Proof.
  apply (cancelled_before_first_tick 0 1 no_args (env_cancelled_at 0)).
  reflexivity.
Defined.

Lemma main_while_visits E P us fuel k st :
  main_while fuel E P us k (tick_state E us k) = Some st ->
  exists n, (k <= n <= k + fuel)%nat /\ st = tick_state E us n /\
            (forall j, (k <= j < n)%nat -> errorFlag E j = false).
Proof.
  revert k. induction fuel as [| fuel IH]; intros k H; [discriminate |].
  rewrite main_while_S in H. destruct (errorFlag E k) eqn:Hf.
  - exists k. split; [lia |]. split; [congruence |]. intros j Hj. lia.
  - change (main_tick E us k (tick_state E us k))
      with (tick_state E us (S k)) in H.
    destruct (loop_count_enable P && _).
    + exists (S k). split; [lia |]. split; [congruence |].
      intros j Hj. assert (j = k) by lia. congruence.
    + destruct (IH (S k) H) as (n & Hn & Hst & Hno).
      exists n. split; [lia |]. split; [assumption |].
      intros j Hj. destruct (Nat.eq_dec j k) as [-> | Hne]; [assumption |].
      apply Hno. lia.
Qed.




(** ** Signals *)

Lemma handler_keeps_one signo : signalHandler signo 1 = 1.
Proof. destruct signo; reflexivity. Qed.

Lemma fold_handler_one l :
  fold_left (fun flag signo => signalHandler signo flag) l 1 = 1.
Proof.
  induction l as [| s l IH]; [reflexivity |].
  cbn [fold_left]. rewrite handler_keeps_one. exact IH.
Qed.

(** X22.  The handler only ever sets the flag: it stores 1 for the five
    signals it names, leaves the flag alone for any other, never clears it,
    and running it again changes nothing; each signal [main] installs it for
    is one that sets the flag. *)
Theorem signalHandler_only_sets (signo : signal) (flag : Z) :
  (signalHandler signo flag = 1 \/ signalHandler signo flag = flag) /\
  (flag <> 0 -> signalHandler signo flag <> 0) /\
  signalHandler signo (signalHandler signo flag) = signalHandler signo flag /\
  (forall n, signalHandler (SIG_other n) flag = flag) /\
  Forall (fun s => forall f, signalHandler s f = 1) main_signals /\
  signalHandler SIGQUIT flag = 1 /\ signalHandler SIGINT flag = 1 /\
  signalHandler SIGKILL flag = 1 /\ signalHandler SIGILL flag = 1 /\
  signalHandler SIGTERM flag = 1 /\
  (signalHandler signo flag = 1 <->
   flag = 1 \/ In signo [SIGQUIT; SIGINT; SIGKILL; SIGILL; SIGTERM]).
Proof.
  split; [destruct signo; cbn; auto |].
  split; [destruct signo; cbn; intros; try discriminate; assumption |].
  split; [destruct signo; reflexivity |].
  split; [reflexivity |].
  split; [repeat constructor |].
  do 5 (split; [reflexivity |]).
  destruct signo; cbn [signalHandler In]; split; intros H; auto 10.
  - destruct H as [H | H]; [assumption |].
    repeat (destruct H as [H | H]; [discriminate H |]). destruct H.
Qed.

Lemma handled_sets_flag l1 s l2 :
  In s main_signals -> errorFlag_after (l1 ++ s :: l2) = 1.
Proof.
  intros Hs. unfold errorFlag_after. rewrite fold_left_app. cbn [fold_left].
  assert (H1 : forall f, signalHandler s f = 1).
  { intros f. destruct Hs as [<- | [<- | [<- | [<- | []]]]]; reflexivity. }
  rewrite H1. apply fold_handler_one.
Qed.

Lemma signal_sets_errorFlag arrivals rnd clock s j n :
  In s (arrivals j) -> In s main_signals -> (j <= n)%nat ->
  errorFlag (env_with_signals arrivals rnd clock) n = true.
Proof.
  intros Hin Hs Hjn. cbn [env_with_signals errorFlag].
  assert (Hc : In s (concat (map arrivals (seq 0 (S n))))).
  { apply in_concat. exists (arrivals j). split; [| assumption].
    apply in_map, in_seq. lia. }
  apply in_split in Hc. destruct Hc as (l1 & l2 & ->).
  rewrite handled_sets_flag by assumption. reflexivity.
Qed.

(** X23.  Once the handler has run for one of the installed signals, every
    later test of the loop condition sees the flag set, and [main] returns
    after finishing at most the iterations begun before that test. *)
Theorem signal_stops_main (arrivals : nat -> list signal)
    (rnd : nat -> nat -> Z) (clock : nat -> nat -> timeval)
    (argc : Z) (argv : nat -> Z) (s : signal) (j : nat) :
  In s (arrivals j) -> In s main_signals ->
  let E := env_with_signals arrivals rnd clock in
  let P := setParameterFromCommandLine argc argv in
  (forall n, (j <= n)%nat -> errorFlag E n = true) /\
  exists out n,
    main (S j) argc argv E = Some out /\ (n <= j)%nat /\
    final out = tick_state E (main_microsecond (hz P)) n /\
    exit_status out = 0.
Proof.
  intros Hin Hs E P.
  assert (Hflag : forall n, (j <= n)%nat -> errorFlag E n = true)
    by (intros n Hn; apply (signal_sets_errorFlag _ _ _ s j n); assumption).
  split; [exact Hflag |].
  destruct (main_while_total E P (main_microsecond (hz P)) j 0 state0
              (Hflag j (Nat.le_refl j))) as [st Hst].
  destruct (main_while_visits E P _ (S j) 0 st Hst) as (n & Hn & Hn' & Hno).
  assert (Hle : (n <= j)%nat).
  { destruct (Nat.le_gt_cases n j) as [Hl | Hg]; [assumption |].
    pose proof (Hflag j (Nat.le_refl j)) as Hj.
    rewrite (Hno j) in Hj by lia. discriminate Hj. }
  rewrite main_eq. cbv zeta. fold P E. rewrite Hst.
  eexists. exists n. split; [reflexivity |]. split; [exact Hle |].
  split; [exact Hn' | reflexivity].
Qed.

Lemma signal_stops_main_witness :
  exists out n,
    main 3 1 no_args
      (env_with_signals (fun k => if (k =? 2)%nat then [SIGINT] else [])
                        (fun _ _ => 0) (fun _ _ => mkTimeval 0 0))
    = Some out /\ (n <= 2)%nat.
Proof.
  destruct (signal_stops_main
              (fun k => if (k =? 2)%nat then [SIGINT] else [])
              (fun _ _ => 0) (fun _ _ => mkTimeval 0 0) 1 no_args SIGINT 2)
    as (_ & out & n & H1 & H2 & _).
  - left. reflexivity.
  - left. reflexivity.
  - exists out, n. split; [exact H1 | exact H2].
Defined.

Lemma looptime_within_one_second_witness :
  looptime (mkTimeval 7 1000) (mkTimeval 7 3500) =
  spec_elapsed (mkTimeval 7 1000) (mkTimeval 7 3500).
Proof.
  apply (looptime_within_one_second (mkTimeval 7 1000) (mkTimeval 7 3500));
    cbn; try lia; reflexivity.
Defined.
